(** * VoiceForge: the live-session hook [useGeminiLive]

    A shallow embedding of [hooks/useGeminiLive] (connection life cycle,
    playback scheduler, interruption handling, live parameter update) and of
    the enum and config types of [types.ts]. The helpers of [utils/audio]
    (PCM encoding and decoding, the two sample rates) enter only through
    their results.

    Conventions of the embedding.
    - JavaScript numbers that carry time, speed or volume are rationals
      ([Q]); rounding of doubles is not represented.
    - Browser objects live in heaps (lists); an object's identity is its
      index, a React ref holds such an index (or [None] for [null]).
    - Every [async] function and every callback runs to completion as one
      step; what other callbacks could do while one of them is suspended at
      an [await] is not represented, except for [disconnect], which is
      also given [await] by [await] so that overlapping calls can be
      stated.
    - The code runs in a small state-and-exception monad [Js]: an exception
      keeps the effects performed before it was thrown. *)

From Stdlib Require Import List String Bool Arith Lia QArith Lqa.
Import ListNotations.

(** ** types.ts *)

Inductive ConnectionState : Type :=
| DISCONNECTED
| CONNECTING
| CONNECTED
| ERROR.

Definition ConnectionState_eqb (a b : ConnectionState) : bool :=
  match a, b with
  | DISCONNECTED, DISCONNECTED => true
  | CONNECTING, CONNECTING => true
  | CONNECTED, CONNECTED => true
  | ERROR, ERROR => true
  | _, _ => false
  end.

Record VoiceConfig : Type := {
  voiceName : string;
  speed : Q;
  pitch : Q;
  tone : string;
  systemInstruction : string;
  activeClonedVoiceId : option string
}.

(** ** JavaScript values the hook looks at *)

(** A thrown value: an [Error] instance with its [message], or anything else
    with the text [String(err)] gives for it. *)
Inductive JsValue : Type :=
| JsError (message : string)
| JsOther (text : string).

(** Truthiness of a [string | undefined]: absent and empty are falsy. *)
Definition truthy (s : option string) : bool :=
  match s with
  | Some (String _ _) => true
  | _ => false
  end.

Definition isSome {A : Type} (o : option A) : bool :=
  match o with Some _ => true | None => false end.

(** [a > b] and [a < b] on numbers. *)
Definition Qgtb (a b : Q) : bool := negb (Qle_bool a b).
Definition Qltb (a b : Q) : bool := negb (Qle_bool b a).

(** [Math.max(a, b)]. *)
Definition Math_max (a b : Q) : Q := if Qle_bool a b then b else a.

(** ** A JavaScript [Set] of object identities, in insertion order *)

Module JsSet.

Definition t : Type := list nat.

Definition empty : t := [].

Definition has (x : nat) (s : t) : bool := existsb (Nat.eqb x) s.

Definition add (x : nat) (s : t) : t := if has x s then s else s ++ [x].

Definition delete (x : nat) (s : t) : t :=
  filter (fun y => negb (Nat.eqb x y)) s.

Definition clear (_ : t) : t := [].

End JsSet.

(** ** Browser and SDK objects *)

(** The two rates are constants of [utils/audio]; only their names occur in
    the hook. *)
Inductive SampleRate : Type := PCM_SAMPLE_RATE | OUTPUT_SAMPLE_RATE.

Record AudioContext : Type := {
  ctx_sampleRate : SampleRate;
  ctx_closed : bool
}.

Record MediaStream : Type := {
  stream_stopped : bool    (* every track has been stopped *)
}.

Record AnalyserNode : Type := {
  analyser_ctx : nat;
  fftSize : nat;
  analyser_toDestination : bool
}.

Record GainNode : Type := {
  gain_ctx : nat;
  gain_toAnalyser : bool
}.

Record MediaStreamAudioSourceNode : Type := {
  mic_ctx : nat;
  mic_stream : nat;
  mic_connected : bool
}.

(** [proc_onaudioprocess] is the [sessionPromise] captured by the handler
    assigned to [onaudioprocess], once one is assigned. *)
Record ScriptProcessorNode : Type := {
  proc_ctx : nat;
  proc_bufferSize : nat;
  proc_onaudioprocess : option nat;
  proc_connected : bool
}.

Record AudioBuffer : Type := {
  buf_length : nat;
  buf_sampleRate : positive
}.

(** [AudioBuffer.duration]: frames over frames per second. *)
Definition duration (b : AudioBuffer) : Q :=
  Z.of_nat (buf_length b) # buf_sampleRate b.

Record AudioBufferSourceNode : Type := {
  src_ctx : nat;
  src_buffer : option AudioBuffer;
  src_connected : bool;
  src_startedAt : option Q;   (* argument of [start], once called *)
  src_stopped : bool;         (* a [stop] took effect *)
  src_finished : bool;        (* playback is over *)
  src_notified : bool         (* the [ended] event was dispatched *)
}.

(** What [createPcmBlob] of [utils/audio] returns is opaque to the hook. *)
Definition PcmBlob : Type := string.

Inductive RealtimeInput : Type :=
| Media (media : PcmBlob)
| Text (text : string).

Inductive ChannelState : Type := Pending | Open | Closing | Closed.

(** A callback registered with [then] on a session promise that has not
    been fulfilled yet. *)
Inductive Continuation : Type :=
| ThenClose
| ThenSend (input : RealtimeInput).

(** The holes of the system-instruction template of [connect]. *)
Record SystemInstruction : Type := {
  si_base : string;
  si_tone : string;
  si_speed : Q;
  si_style : option string
}.

(** A session promise together with the channel behind it; the promise is
    fulfilled once the channel has opened. *)
Record LiveSession : Type := {
  chan_state : ChannelState;
  chan_voiceName : string;
  chan_systemInstruction : SystemInstruction;
  chan_sent : list RealtimeInput;
  chan_then : list Continuation
}.

Record Browser : Type := {
  contexts : list AudioContext;
  streams : list MediaStream;
  micSources : list MediaStreamAudioSourceNode;
  processors : list ScriptProcessorNode;
  bufferSources : list AudioBufferSourceNode;
  sessions : list LiveSession
}.

(** ** The hook's own state *)

Record Hook : Type := {
  (* useState *)
  connectionState : ConnectionState;
  volume : Q;
  error : option string;
  (* useRef *)
  inputAudioContextRef : option nat;
  outputAudioContextRef : option nat;
  streamRef : option nat;
  processorRef : option nat;
  inputSourceRef : option nat;
  sessionRef : option nat;
  nextStartTimeRef : Q;
  scheduledSourcesRef : JsSet.t;
  analyserRef : option AnalyserNode;
  gainNodeRef : option GainNode
}.

(** [stateLog] lists, most recent first, the values [connectionState] was
    given: one entry per call of [setConnectionState]. *)
Record World : Type := {
  hook : Hook;
  browser : Browser;
  stateLog : list ConnectionState
}.

Definition initialHook : Hook := {|
  connectionState := DISCONNECTED;
  volume := 0;
  error := None;
  inputAudioContextRef := None;
  outputAudioContextRef := None;
  streamRef := None;
  processorRef := None;
  inputSourceRef := None;
  sessionRef := None;
  nextStartTimeRef := 0;
  scheduledSourcesRef := JsSet.empty;
  analyserRef := None;
  gainNodeRef := None
|}.

Definition emptyBrowser : Browser := {|
  contexts := [];
  streams := [];
  micSources := [];
  processors := [];
  bufferSources := [];
  sessions := []
|}.

Definition initialWorld : World := {|
  hook := initialHook;
  browser := emptyBrowser;
  stateLog := []
|}.

(** ** Field updates *)

Definition with_connectionState (v : ConnectionState) (h : Hook) : Hook :=
  {| connectionState := v; volume := volume h; error := error h;
     inputAudioContextRef := inputAudioContextRef h;
     outputAudioContextRef := outputAudioContextRef h;
     streamRef := streamRef h; processorRef := processorRef h;
     inputSourceRef := inputSourceRef h; sessionRef := sessionRef h;
     nextStartTimeRef := nextStartTimeRef h;
     scheduledSourcesRef := scheduledSourcesRef h;
     analyserRef := analyserRef h; gainNodeRef := gainNodeRef h |}.

Definition with_volume (v : Q) (h : Hook) : Hook :=
  {| connectionState := connectionState h; volume := v; error := error h;
     inputAudioContextRef := inputAudioContextRef h;
     outputAudioContextRef := outputAudioContextRef h;
     streamRef := streamRef h; processorRef := processorRef h;
     inputSourceRef := inputSourceRef h; sessionRef := sessionRef h;
     nextStartTimeRef := nextStartTimeRef h;
     scheduledSourcesRef := scheduledSourcesRef h;
     analyserRef := analyserRef h; gainNodeRef := gainNodeRef h |}.

Definition with_error (v : option string) (h : Hook) : Hook :=
  {| connectionState := connectionState h; volume := volume h; error := v;
     inputAudioContextRef := inputAudioContextRef h;
     outputAudioContextRef := outputAudioContextRef h;
     streamRef := streamRef h; processorRef := processorRef h;
     inputSourceRef := inputSourceRef h; sessionRef := sessionRef h;
     nextStartTimeRef := nextStartTimeRef h;
     scheduledSourcesRef := scheduledSourcesRef h;
     analyserRef := analyserRef h; gainNodeRef := gainNodeRef h |}.

Definition with_inputAudioContextRef (v : option nat) (h : Hook) : Hook :=
  {| connectionState := connectionState h; volume := volume h; error := error h;
     inputAudioContextRef := v;
     outputAudioContextRef := outputAudioContextRef h;
     streamRef := streamRef h; processorRef := processorRef h;
     inputSourceRef := inputSourceRef h; sessionRef := sessionRef h;
     nextStartTimeRef := nextStartTimeRef h;
     scheduledSourcesRef := scheduledSourcesRef h;
     analyserRef := analyserRef h; gainNodeRef := gainNodeRef h |}.

Definition with_outputAudioContextRef (v : option nat) (h : Hook) : Hook :=
  {| connectionState := connectionState h; volume := volume h; error := error h;
     inputAudioContextRef := inputAudioContextRef h;
     outputAudioContextRef := v;
     streamRef := streamRef h; processorRef := processorRef h;
     inputSourceRef := inputSourceRef h; sessionRef := sessionRef h;
     nextStartTimeRef := nextStartTimeRef h;
     scheduledSourcesRef := scheduledSourcesRef h;
     analyserRef := analyserRef h; gainNodeRef := gainNodeRef h |}.

Definition with_streamRef (v : option nat) (h : Hook) : Hook :=
  {| connectionState := connectionState h; volume := volume h; error := error h;
     inputAudioContextRef := inputAudioContextRef h;
     outputAudioContextRef := outputAudioContextRef h;
     streamRef := v; processorRef := processorRef h;
     inputSourceRef := inputSourceRef h; sessionRef := sessionRef h;
     nextStartTimeRef := nextStartTimeRef h;
     scheduledSourcesRef := scheduledSourcesRef h;
     analyserRef := analyserRef h; gainNodeRef := gainNodeRef h |}.

Definition with_processorRef (v : option nat) (h : Hook) : Hook :=
  {| connectionState := connectionState h; volume := volume h; error := error h;
     inputAudioContextRef := inputAudioContextRef h;
     outputAudioContextRef := outputAudioContextRef h;
     streamRef := streamRef h; processorRef := v;
     inputSourceRef := inputSourceRef h; sessionRef := sessionRef h;
     nextStartTimeRef := nextStartTimeRef h;
     scheduledSourcesRef := scheduledSourcesRef h;
     analyserRef := analyserRef h; gainNodeRef := gainNodeRef h |}.

Definition with_inputSourceRef (v : option nat) (h : Hook) : Hook :=
  {| connectionState := connectionState h; volume := volume h; error := error h;
     inputAudioContextRef := inputAudioContextRef h;
     outputAudioContextRef := outputAudioContextRef h;
     streamRef := streamRef h; processorRef := processorRef h;
     inputSourceRef := v; sessionRef := sessionRef h;
     nextStartTimeRef := nextStartTimeRef h;
     scheduledSourcesRef := scheduledSourcesRef h;
     analyserRef := analyserRef h; gainNodeRef := gainNodeRef h |}.

Definition with_sessionRef (v : option nat) (h : Hook) : Hook :=
  {| connectionState := connectionState h; volume := volume h; error := error h;
     inputAudioContextRef := inputAudioContextRef h;
     outputAudioContextRef := outputAudioContextRef h;
     streamRef := streamRef h; processorRef := processorRef h;
     inputSourceRef := inputSourceRef h; sessionRef := v;
     nextStartTimeRef := nextStartTimeRef h;
     scheduledSourcesRef := scheduledSourcesRef h;
     analyserRef := analyserRef h; gainNodeRef := gainNodeRef h |}.

Definition with_nextStartTimeRef (v : Q) (h : Hook) : Hook :=
  {| connectionState := connectionState h; volume := volume h; error := error h;
     inputAudioContextRef := inputAudioContextRef h;
     outputAudioContextRef := outputAudioContextRef h;
     streamRef := streamRef h; processorRef := processorRef h;
     inputSourceRef := inputSourceRef h; sessionRef := sessionRef h;
     nextStartTimeRef := v;
     scheduledSourcesRef := scheduledSourcesRef h;
     analyserRef := analyserRef h; gainNodeRef := gainNodeRef h |}.

Definition with_scheduledSourcesRef (v : JsSet.t) (h : Hook) : Hook :=
  {| connectionState := connectionState h; volume := volume h; error := error h;
     inputAudioContextRef := inputAudioContextRef h;
     outputAudioContextRef := outputAudioContextRef h;
     streamRef := streamRef h; processorRef := processorRef h;
     inputSourceRef := inputSourceRef h; sessionRef := sessionRef h;
     nextStartTimeRef := nextStartTimeRef h;
     scheduledSourcesRef := v;
     analyserRef := analyserRef h; gainNodeRef := gainNodeRef h |}.

Definition with_analyserRef (v : option AnalyserNode) (h : Hook) : Hook :=
  {| connectionState := connectionState h; volume := volume h; error := error h;
     inputAudioContextRef := inputAudioContextRef h;
     outputAudioContextRef := outputAudioContextRef h;
     streamRef := streamRef h; processorRef := processorRef h;
     inputSourceRef := inputSourceRef h; sessionRef := sessionRef h;
     nextStartTimeRef := nextStartTimeRef h;
     scheduledSourcesRef := scheduledSourcesRef h;
     analyserRef := v; gainNodeRef := gainNodeRef h |}.

Definition with_gainNodeRef (v : option GainNode) (h : Hook) : Hook :=
  {| connectionState := connectionState h; volume := volume h; error := error h;
     inputAudioContextRef := inputAudioContextRef h;
     outputAudioContextRef := outputAudioContextRef h;
     streamRef := streamRef h; processorRef := processorRef h;
     inputSourceRef := inputSourceRef h; sessionRef := sessionRef h;
     nextStartTimeRef := nextStartTimeRef h;
     scheduledSourcesRef := scheduledSourcesRef h;
     analyserRef := analyserRef h; gainNodeRef := v |}.

Definition with_contexts (v : list AudioContext) (b : Browser) : Browser :=
  {| contexts := v; streams := streams b; micSources := micSources b;
     processors := processors b; bufferSources := bufferSources b;
     sessions := sessions b |}.

Definition with_streams (v : list MediaStream) (b : Browser) : Browser :=
  {| contexts := contexts b; streams := v; micSources := micSources b;
     processors := processors b; bufferSources := bufferSources b;
     sessions := sessions b |}.

Definition with_micSources (v : list MediaStreamAudioSourceNode) (b : Browser)
  : Browser :=
  {| contexts := contexts b; streams := streams b; micSources := v;
     processors := processors b; bufferSources := bufferSources b;
     sessions := sessions b |}.

Definition with_processors (v : list ScriptProcessorNode) (b : Browser)
  : Browser :=
  {| contexts := contexts b; streams := streams b; micSources := micSources b;
     processors := v; bufferSources := bufferSources b;
     sessions := sessions b |}.

Definition with_bufferSources (v : list AudioBufferSourceNode) (b : Browser)
  : Browser :=
  {| contexts := contexts b; streams := streams b; micSources := micSources b;
     processors := processors b; bufferSources := v;
     sessions := sessions b |}.

Definition with_sessions (v : list LiveSession) (b : Browser) : Browser :=
  {| contexts := contexts b; streams := streams b; micSources := micSources b;
     processors := processors b; bufferSources := bufferSources b;
     sessions := v |}.

(** Replace the object at index [i]; out of range leaves the heap as it is. *)
Fixpoint update {A : Type} (i : nat) (f : A -> A) (l : list A) : list A :=
  match l, i with
  | [], _ => []
  | x :: t, O => f x :: t
  | x :: t, S j => x :: update j f t
  end.

(** ** The monad the code runs in *)

Inductive Outcome (A : Type) : Type :=
| Returned (a : A) (w : World)
| Threw (e : JsValue) (w : World).

Arguments Returned {A} a w.
Arguments Threw {A} e w.

Definition Js (A : Type) : Type := World -> Outcome A.

Definition ret {A : Type} (a : A) : Js A := fun w => Returned a w.

Definition bind {A B : Type} (m : Js A) (k : A -> Js B) : Js B :=
  fun w =>
    match m w with
    | Returned a w' => k a w'
    | Threw e w' => Threw e w'
    end.

Definition throw {A : Type} (e : JsValue) : Js A := fun w => Threw e w.

(** [try { body } catch (e) { handler e }] *)
Definition tryCatch {A : Type} (body : Js A) (handler : JsValue -> Js A)
  : Js A :=
  fun w =>
    match body w with
    | Returned a w' => Returned a w'
    | Threw e w' => handler e w'
    end.

Declare Scope js_scope.
Delimit Scope js_scope with js.

Notation "x <- m ;; k" := (bind m (fun x => k))
  (at level 61, m at next level, right associativity) : js_scope.
Notation "m ;; k" := (bind m (fun _ => k))
  (at level 61, right associativity) : js_scope.

Definition read {A : Type} (f : Hook -> A) : Js A :=
  fun w => Returned (f (hook w)) w.

Definition look {A : Type} (f : Browser -> A) : Js A :=
  fun w => Returned (f (browser w)) w.

Definition assign (f : Hook -> Hook) : Js unit :=
  fun w =>
    Returned tt
      {| hook := f (hook w); browser := browser w; stateLog := stateLog w |}.

Definition mutate (f : Browser -> Browser) : Js unit :=
  fun w =>
    Returned tt
      {| hook := hook w; browser := f (browser w); stateLog := stateLog w |}.

(** The world an execution leaves behind, whether it returned or threw. *)
Definition after {A : Type} (o : Outcome A) : World :=
  match o with
  | Returned _ w => w
  | Threw _ w => w
  end.

Definition returned {A : Type} (o : Outcome A) : bool :=
  match o with
  | Returned _ _ => true
  | Threw _ _ => false
  end.

Local Open Scope js_scope.

(** ** React state setters *)

Definition setConnectionState (v : ConnectionState) : Js unit :=
  fun w =>
    Returned tt
      {| hook := with_connectionState v (hook w);
         browser := browser w;
         stateLog := v :: stateLog w |}.

Definition setVolume (v : Q) : Js unit := assign (with_volume v).

Definition setError (v : option string) : Js unit := assign (with_error v).

(** ** Web Audio and media-device operations the hook calls *)

Module Web.

Definition InvalidStateError : JsValue := JsError "InvalidStateError".

(** [new AudioContext({ sampleRate })] *)
Definition newAudioContext (rate : SampleRate) : Js nat :=
  cs <- look contexts ;;
  mutate (with_contexts
            (cs ++ [{| ctx_sampleRate := rate; ctx_closed := false |}])) ;;
  ret (List.length cs).

(** [AudioContext.close()]: the promise is rejected when the context has
    been closed before. *)
Definition close (ctx : nat) : Js unit :=
  cs <- look contexts ;;
  match nth_error cs ctx with
  | Some c =>
      if ctx_closed c then throw InvalidStateError
      else mutate (with_contexts
                     (update ctx
                        (fun c => {| ctx_sampleRate := ctx_sampleRate c;
                                     ctx_closed := true |}) cs))
  | None => throw InvalidStateError
  end.

(** The answer to [navigator.mediaDevices.getUserMedia]. *)
Inductive Microphone : Type :=
| Granted
| Rejected (reason : JsValue).

Definition getUserMedia (answer : Microphone) : Js nat :=
  match answer with
  | Granted =>
      ss <- look streams ;;
      mutate (with_streams (ss ++ [{| stream_stopped := false |}])) ;;
      ret (List.length ss)
  | Rejected reason => throw reason
  end.

(** [stream.getTracks().forEach(track => track.stop())] *)
Definition stopTracks (stream : nat) : Js unit :=
  mutate (fun b =>
            with_streams
              (update stream (fun _ => {| stream_stopped := true |})
                 (streams b)) b).

Definition createMediaStreamSource (ctx stream : nat) : Js nat :=
  ms <- look micSources ;;
  mutate (with_micSources
            (ms ++ [{| mic_ctx := ctx; mic_stream := stream;
                       mic_connected := false |}])) ;;
  ret (List.length ms).

Definition setMicConnected (v : bool) (node : nat) : Js unit :=
  mutate (fun b =>
            with_micSources
              (update node
                 (fun m => {| mic_ctx := mic_ctx m;
                              mic_stream := mic_stream m;
                              mic_connected := v |}) (micSources b)) b).

Definition createScriptProcessor (ctx size : nat) : Js nat :=
  ps <- look processors ;;
  mutate (with_processors
            (ps ++ [{| proc_ctx := ctx; proc_bufferSize := size;
                       proc_onaudioprocess := None;
                       proc_connected := false |}])) ;;
  ret (List.length ps).

Definition setOnaudioprocess (node session : nat) : Js unit :=
  mutate (fun b =>
            with_processors
              (update node
                 (fun p => {| proc_ctx := proc_ctx p;
                              proc_bufferSize := proc_bufferSize p;
                              proc_onaudioprocess := Some session;
                              proc_connected := proc_connected p |})
                 (processors b)) b).

Definition setProcessorConnected (v : bool) (node : nat) : Js unit :=
  mutate (fun b =>
            with_processors
              (update node
                 (fun p => {| proc_ctx := proc_ctx p;
                              proc_bufferSize := proc_bufferSize p;
                              proc_onaudioprocess := proc_onaudioprocess p;
                              proc_connected := v |})
                 (processors b)) b).

Definition createBufferSource (ctx : nat) : Js nat :=
  ns <- look bufferSources ;;
  mutate (with_bufferSources
            (ns ++ [{| src_ctx := ctx; src_buffer := None;
                       src_connected := false; src_startedAt := None;
                       src_stopped := false; src_finished := false;
                       src_notified := false |}])) ;;
  ret (List.length ns).

Definition modifySource (node : nat)
  (f : AudioBufferSourceNode -> AudioBufferSourceNode) : Js unit :=
  mutate (fun b => with_bufferSources (update node f (bufferSources b)) b).

Definition setBuffer (node : nat) (buffer : AudioBuffer) : Js unit :=
  modifySource node
    (fun n => {| src_ctx := src_ctx n; src_buffer := Some buffer;
                 src_connected := src_connected n;
                 src_startedAt := src_startedAt n;
                 src_stopped := src_stopped n;
                 src_finished := src_finished n;
                 src_notified := src_notified n |}).

Definition connectSource (node : nat) : Js unit :=
  modifySource node
    (fun n => {| src_ctx := src_ctx n; src_buffer := src_buffer n;
                 src_connected := true;
                 src_startedAt := src_startedAt n;
                 src_stopped := src_stopped n;
                 src_finished := src_finished n;
                 src_notified := src_notified n |}).

Definition started (n : AudioBufferSourceNode) : bool :=
  isSome (src_startedAt n).

(** [source.start(when)]: a second [start] on the same node throws. *)
Definition start (node : nat) (when : Q) : Js unit :=
  ns <- look bufferSources ;;
  match nth_error ns node with
  | Some n =>
      if started n then throw InvalidStateError
      else modifySource node
             (fun n => {| src_ctx := src_ctx n; src_buffer := src_buffer n;
                          src_connected := src_connected n;
                          src_startedAt := Some when;
                          src_stopped := src_stopped n;
                          src_finished := src_finished n;
                          src_notified := src_notified n |})
  | None => throw InvalidStateError
  end.

Definition halt (n : AudioBufferSourceNode) : AudioBufferSourceNode :=
  if src_finished n then n
  else {| src_ctx := src_ctx n; src_buffer := src_buffer n;
          src_connected := src_connected n;
          src_startedAt := src_startedAt n;
          src_stopped := true; src_finished := src_finished n;
          src_notified := src_notified n |}.

(** [source.stop()]: throws on a node that was never started, has no
    effect on one whose playback is over, stops any other. *)
Definition stop (node : nat) : Js unit :=
  ns <- look bufferSources ;;
  match nth_error ns node with
  | Some n =>
      if started n then modifySource node halt
      else throw InvalidStateError
  | None => throw InvalidStateError
  end.

(** Playback of a node comes to its end. *)
Definition markFinished (node : nat) : Js unit :=
  modifySource node
    (fun n => {| src_ctx := src_ctx n; src_buffer := src_buffer n;
                 src_connected := src_connected n;
                 src_startedAt := src_startedAt n;
                 src_stopped := src_stopped n; src_finished := true;
                 src_notified := src_notified n |}).

(** The [ended] event of a node is being dispatched. *)
Definition markNotified (node : nat) : Js unit :=
  modifySource node
    (fun n => {| src_ctx := src_ctx n; src_buffer := src_buffer n;
                 src_connected := src_connected n;
                 src_startedAt := src_startedAt n;
                 src_stopped := src_stopped n;
                 src_finished := src_finished n;
                 src_notified := true |}).

End Web.

(** ** The live API of the SDK *)

Module Live.

Definition setState (v : ChannelState) (s : LiveSession) : LiveSession :=
  {| chan_state := v; chan_voiceName := chan_voiceName s;
     chan_systemInstruction := chan_systemInstruction s;
     chan_sent := chan_sent s; chan_then := chan_then s |}.

Definition push (input : RealtimeInput) (s : LiveSession) : LiveSession :=
  {| chan_state := chan_state s; chan_voiceName := chan_voiceName s;
     chan_systemInstruction := chan_systemInstruction s;
     chan_sent := chan_sent s ++ [input]; chan_then := chan_then s |}.

Definition setThen (k : list Continuation) (s : LiveSession) : LiveSession :=
  {| chan_state := chan_state s; chan_voiceName := chan_voiceName s;
     chan_systemInstruction := chan_systemInstruction s;
     chan_sent := chan_sent s; chan_then := k |}.

Definition modifySession (session : nat) (f : LiveSession -> LiveSession)
  : Js unit :=
  mutate (fun b => with_sessions (update session f (sessions b)) b).

(** [ai.live.connect({ model, callbacks, config })]: returns the session
    promise at once, the channel opens later. *)
Definition connect (voice : string) (instruction : SystemInstruction)
  : Js nat :=
  ss <- look sessions ;;
  mutate (with_sessions
            (ss ++ [{| chan_state := Pending; chan_voiceName := voice;
                       chan_systemInstruction := instruction;
                       chan_sent := []; chan_then := [] |}])) ;;
  ret (List.length ss).

(** [session.close()]: asks the channel to close; fails on a channel that
    is closing or closed already. *)
Definition close (session : nat) : Js unit :=
  ss <- look sessions ;;
  match nth_error ss session with
  | Some s =>
      match chan_state s with
      | Pending | Open => modifySession session (setState Closing)
      | Closing | Closed => throw (JsError "channel already closed")
      end
  | None => throw (JsError "no such session")
  end.

(** [session.sendRealtimeInput(input)]: delivered on an open channel,
    dropped otherwise. *)
Definition sendRealtimeInput (session : nat) (input : RealtimeInput)
  : Js unit :=
  ss <- look sessions ;;
  match nth_error ss session with
  | Some s =>
      match chan_state s with
      | Open => modifySession session (push input)
      | _ => ret tt
      end
  | None => ret tt
  end.

(** The body of a callback given to [then]; a failing [close] is
    swallowed by the [catch(() => {})] that follows it in the hook. *)
Definition resume (session : nat) (k : Continuation) : Js unit :=
  match k with
  | ThenClose => tryCatch (close session) (fun _ => ret tt)
  | ThenSend input => sendRealtimeInput session input
  end.

(** [promise.then(k)] and [await promise; k]: run [k] now when the promise
    is fulfilled, keep it for later when it is pending. *)
Definition andThen (session : nat) (k : Continuation) : Js unit :=
  ss <- look sessions ;;
  match nth_error ss session with
  | Some s =>
      match chan_state s with
      | Pending =>
          modifySession session (fun s => setThen (chan_then s ++ [k]) s)
      | _ => resume session k
      end
  | None => ret tt
  end.

End Live.

(** ** hooks/useGeminiLive *)

Definition textOf (s : option string) : string :=
  match s with
  | Some t => t
  | None => EmptyString
  end.

Definition speedQualifier (newConfig : VoiceConfig) : string :=
  if Qgtb (speed newConfig) (12 # 10) then "faster"
  else if Qltb (speed newConfig) (8 # 10) then "slower"
  else "normal".

(** The text [updateVoiceParams] builds in [instruction]. *)
Definition voiceUpdateInstruction (newConfig : VoiceConfig)
  (newClonedStyle : option string) : string :=
  let instruction := "[System Update] Adjust voice settings:"%string in
  let instruction :=
    (instruction ++ (" Speed: " ++ speedQualifier newConfig ++ "."))%string in
  let instruction :=
    (instruction ++ (" Tone: " ++ tone newConfig ++ "."))%string in
  if truthy newClonedStyle
  then (instruction ++ (" Style: " ++ textOf newClonedStyle))%string
  else instruction.

Definition updateVoiceParams (newConfig : VoiceConfig)
  (newClonedStyle : option string) : Js unit :=
  state <- read connectionState ;;
  current <- read sessionRef ;;
  if negb (ConnectionState_eqb state CONNECTED) || negb (isSome current)
  then ret tt
  else
    match current with
    | Some session =>
        Live.andThen session
          (ThenSend (Text (voiceUpdateInstruction newConfig newClonedStyle)))
    | None => ret tt
    end.

(** What [connect] finds around it: [process.env.API_KEY] and the answer to
    the microphone request. *)
Record Environment : Type := {
  API_KEY : option string;
  microphone : Web.Microphone
}.

Definition composeSystemInstruction (config : VoiceConfig)
  (clonedStyleInstruction : option string) : SystemInstruction :=
  {| si_base := systemInstruction config;
     si_tone := tone config;
     si_speed := speed config;
     si_style := if truthy clonedStyleInstruction
                 then clonedStyleInstruction else None |}.

Definition connect (env : Environment) (config : VoiceConfig)
  (clonedStyleInstruction : option string) : Js unit :=
  tryCatch
    (setConnectionState CONNECTING ;;
     setError None ;;
     (if truthy (API_KEY env) then ret tt
      else throw (JsError "API Key not found in environment.")) ;;
     inputCtx <- Web.newAudioContext PCM_SAMPLE_RATE ;;
     assign (with_inputAudioContextRef (Some inputCtx)) ;;
     outputCtx <- Web.newAudioContext OUTPUT_SAMPLE_RATE ;;
     assign (with_outputAudioContextRef (Some outputCtx)) ;;
     assign (with_analyserRef
               (Some {| analyser_ctx := outputCtx; fftSize := 256;
                        analyser_toDestination := false |})) ;;
     assign (with_gainNodeRef
               (Some {| gain_ctx := outputCtx; gain_toAnalyser := true |})) ;;
     assign (with_analyserRef
               (Some {| analyser_ctx := outputCtx; fftSize := 256;
                        analyser_toDestination := true |})) ;;
     stream <- Web.getUserMedia (microphone env) ;;
     assign (with_streamRef (Some stream)) ;;
     sessionPromise <-
       Live.connect (voiceName config)
         (composeSystemInstruction config clonedStyleInstruction) ;;
     assign (with_sessionRef (Some sessionPromise)))
    (fun err =>
       setError (Some match err with
                      | JsError message => message
                      | JsOther _ => "Failed to connect"%string
                      end) ;;
       setConnectionState ERROR).

(** *** The callbacks [connect] hands to the live API *)

Definition onopen (sessionPromise : nat) : Js unit :=
  setConnectionState CONNECTED ;;
  inputCtx <- read inputAudioContextRef ;;
  stream <- read streamRef ;;
  match inputCtx, stream with
  | Some ctx, Some str =>
      source <- Web.createMediaStreamSource ctx str ;;
      assign (with_inputSourceRef (Some source)) ;;
      processor <- Web.createScriptProcessor ctx 4096 ;;
      assign (with_processorRef (Some processor)) ;;
      Web.setOnaudioprocess processor sessionPromise ;;
      Web.setMicConnected true source ;;
      Web.setProcessorConnected true processor
  | _, _ => ret tt
  end.

(** [rms] is the value of [Math.sqrt(sum / inputData.length)] and [pcmBlob]
    that of [createPcmBlob(inputData)] for the block the device delivered. *)
Definition onaudioprocess (sessionPromise : nat) (pcmBlob : PcmBlob) (rms : Q)
  : Js unit :=
  setVolume rms ;;
  Live.andThen sessionPromise (ThenSend (Media pcmBlob)).

(** The inline audio of a message, seen through what
    [decodeAudioData(decodeBase64(data), ctx, OUTPUT_SAMPLE_RATE, 1)] of
    [utils/audio] makes of it. *)
Inductive InlineData : Type :=
| Decodes (audioBuffer : AudioBuffer)
| Malformed.

(** [inlineData = None]: the message has no [modelTurn] audio, or its data
    is the empty string. *)
Record LiveServerMessage : Type := {
  inlineData : option InlineData;
  interrupted : bool
}.

Definition decodeAudioData (data : InlineData) : Js AudioBuffer :=
  match data with
  | Decodes audioBuffer => ret audioBuffer
  | Malformed => throw (JsError "malformed audio payload")
  end.

(** [source.onended]: the handler every scheduled source carries. *)
Definition onended (source : nat) : Js unit :=
  pending <- read scheduledSourcesRef ;;
  assign (with_scheduledSourcesRef (JsSet.delete source pending)).

(** The block under [// Schedule Playback]; [currentTime] is the reading of
    [ctx.currentTime]. *)
Definition schedulePlayback (ctx : nat) (currentTime : Q)
  (audioBuffer : AudioBuffer) : Js unit :=
  next <- read nextStartTimeRef ;;
  assign (with_nextStartTimeRef (Math_max next currentTime)) ;;
  source <- Web.createBufferSource ctx ;;
  Web.setBuffer source audioBuffer ;;
  Web.connectSource source ;;
  startAt <- read nextStartTimeRef ;;
  Web.start source startAt ;;
  next <- read nextStartTimeRef ;;
  assign (with_nextStartTimeRef (next + duration audioBuffer)%Q) ;;
  pending <- read scheduledSourcesRef ;;
  assign (with_scheduledSourcesRef (JsSet.add source pending)).

(** [collection.forEach(f)] *)
Fixpoint forEach {A : Type} (s : list A) (f : A -> Js unit) : Js unit :=
  match s with
  | [] => ret tt
  | x :: rest => f x ;; forEach rest f
  end.

(** The block under [// Handle Interruption]. *)
Definition handleInterruption : Js unit :=
  pending <- read scheduledSourcesRef ;;
  forEach pending
    (fun source => tryCatch (Web.stop source) (fun _ => ret tt)) ;;
  pending <- read scheduledSourcesRef ;;
  assign (with_scheduledSourcesRef (JsSet.clear pending)) ;;
  assign (with_nextStartTimeRef 0).

Definition onmessage (currentTime : Q) (message : LiveServerMessage)
  : Js unit :=
  outputCtx <- read outputAudioContextRef ;;
  gainNode <- read gainNodeRef ;;
  match inlineData message, outputCtx, gainNode with
  | Some base64Audio, Some ctx, Some _ =>
      audioBuffer <- decodeAudioData base64Audio ;;
      schedulePlayback ctx currentTime audioBuffer
  | _, _, _ => ret tt
  end ;;
  if interrupted message then handleInterruption else ret tt.

Definition onclose : Js unit := setConnectionState DISCONNECTED.

Definition onerror (err : JsValue) : Js unit :=
  setError (Some match err with
                 | JsError message => message
                 | JsOther text => text
                 end) ;;
  setConnectionState ERROR.

Definition disconnect : Js unit :=
  stream <- read streamRef ;;
  match stream with
  | Some s => Web.stopTracks s ;; assign (with_streamRef None)
  | None => ret tt
  end ;;
  processor <- read processorRef ;;
  match processor with
  | Some p =>
      Web.setProcessorConnected false p ;; assign (with_processorRef None)
  | None => ret tt
  end ;;
  inputSource <- read inputSourceRef ;;
  match inputSource with
  | Some m => Web.setMicConnected false m ;; assign (with_inputSourceRef None)
  | None => ret tt
  end ;;
  inputCtx <- read inputAudioContextRef ;;
  match inputCtx with
  | Some c => Web.close c ;; assign (with_inputAudioContextRef None)
  | None => ret tt
  end ;;
  outputCtx <- read outputAudioContextRef ;;
  match outputCtx with
  | Some c => Web.close c ;; assign (with_outputAudioContextRef None)
  | None => ret tt
  end ;;
  session <- read sessionRef ;;
  match session with
  | Some s => Live.andThen s ThenClose
  | None => ret tt
  end ;;
  setConnectionState DISCONNECTED ;;
  setVolume 0 ;;
  pending <- read scheduledSourcesRef ;;
  assign (with_scheduledSourcesRef (JsSet.clear pending)) ;;
  assign (with_nextStartTimeRef 0).

(** *** [disconnect], [await] by [await]

    [disconnect] is an [async] function: at each of its two [await]s
    (lines 216 and 221) the call is suspended, after [close()] has been
    called on the context and before the ref is set to [null], and other
    calls and callbacks may run until it is resumed. *)
Inductive Suspension : Type :=
| AtInputClose
| AtOutputClose.

(** Lines 225-236: from the session to the end of the function. *)
Definition disconnect_finish : Js (option Suspension) :=
  session <- read sessionRef ;;
  match session with
  | Some s => Live.andThen s ThenClose
  | None => ret tt
  end ;;
  setConnectionState DISCONNECTED ;;
  setVolume 0 ;;
  pending <- read scheduledSourcesRef ;;
  assign (with_scheduledSourcesRef (JsSet.clear pending)) ;;
  assign (with_nextStartTimeRef 0) ;;
  ret None.

(** Lines 220-221, and on when there is no output context to wait for. *)
Definition disconnect_output : Js (option Suspension) :=
  outputCtx <- read outputAudioContextRef ;;
  match outputCtx with
  | Some c => Web.close c ;; ret (Some AtOutputClose)
  | None => disconnect_finish
  end.

(** A call of [disconnect] up to its first [await], the call of [close()]
    included; a [close()] that rejects makes the call reject. *)
Definition disconnect_begin : Js (option Suspension) :=
  stream <- read streamRef ;;
  match stream with
  | Some s => Web.stopTracks s ;; assign (with_streamRef None)
  | None => ret tt
  end ;;
  processor <- read processorRef ;;
  match processor with
  | Some p =>
      Web.setProcessorConnected false p ;; assign (with_processorRef None)
  | None => ret tt
  end ;;
  inputSource <- read inputSourceRef ;;
  match inputSource with
  | Some m => Web.setMicConnected false m ;; assign (with_inputSourceRef None)
  | None => ret tt
  end ;;
  inputCtx <- read inputAudioContextRef ;;
  match inputCtx with
  | Some c => Web.close c ;; ret (Some AtInputClose)
  | None => disconnect_output
  end.

(** A suspended call goes on from its [await] to the next one, or to its
    end. *)
Definition disconnect_resume (from : Suspension) : Js (option Suspension) :=
  match from with
  | AtInputClose =>
      assign (with_inputAudioContextRef None) ;; disconnect_output
  | AtOutputClose =>
      assign (with_outputAudioContextRef None) ;; disconnect_finish
  end.

(** A call resumed at once after each [await], until it returns. *)
Definition disconnect_complete (from : option Suspension) : Js unit :=
  match from with
  | None => ret tt
  | Some first =>
      next <- disconnect_resume first ;;
      match next with
      | None => ret tt
      | Some second => disconnect_resume second ;; ret tt
      end
  end.

(** A call of [disconnect] with nothing else running during its
    [await]s. *)
Definition disconnect_alone : Js unit :=
  from <- disconnect_begin ;; disconnect_complete from.

(** ** The hook in its environment *)

Definition sessionState (w : World) (session : nat) : option ChannelState :=
  option_map chan_state (nth_error (sessions (browser w)) session).

Definition waiting (w : World) (session : nat) : list Continuation :=
  match nth_error (sessions (browser w)) session with
  | Some s => chan_then s
  | None => []
  end.

(** The SDK opens the channel of a pending session: it calls [onopen], then
    fulfils the session promise, which runs the callbacks waiting on it. *)
Definition channelOpens (session : nat) : Js unit :=
  fun w =>
    match sessionState w session with
    | Some Pending =>
        (Live.modifySession session (Live.setState Open) ;;
         onopen session ;;
         Live.modifySession session (Live.setThen []) ;;
         forEach (waiting w session) (Live.resume session)) w
    | _ => Returned tt w
    end.

(** The channel delivers a message while it is open or closing. *)
Definition channelDelivers (session : nat) (currentTime : Q)
  (message : LiveServerMessage) : Js unit :=
  fun w =>
    match sessionState w session with
    | Some Open | Some Closing => onmessage currentTime message w
    | _ => Returned tt w
    end.

(** The channel of a session closes, at most once. *)
Definition channelCloses (session : nat) : Js unit :=
  fun w =>
    match sessionState w session with
    | Some Pending | Some Open | Some Closing =>
        (Live.modifySession session (Live.setState Closed) ;; onclose) w
    | _ => Returned tt w
    end.

(** The channel of a session that has not closed reports an error. *)
Definition channelFails (session : nat) (err : JsValue) : Js unit :=
  fun w =>
    match sessionState w session with
    | Some Pending | Some Open | Some Closing => onerror err w
    | _ => Returned tt w
    end.

(** Playback of a started source reaches its end, by itself or because
    the source was stopped. *)
Definition playbackFinishes (source : nat) : Js unit :=
  fun w =>
    match nth_error (bufferSources (browser w)) source with
    | Some n =>
        if Web.started n && negb (src_finished n)
        then Web.markFinished source w
        else Returned tt w
    | None => Returned tt w
    end.

(** The browser dispatches [ended] for a source whose playback is over,
    once. *)
Definition sourceEnds (source : nat) : Js unit :=
  fun w =>
    match nth_error (bufferSources (browser w)) source with
    | Some n =>
        if src_finished n && negb (src_notified n)
        then (Web.markNotified source ;; onended source) w
        else Returned tt w
    | None => Returned tt w
    end.

(** A connected processor with a handler delivers a block of samples. *)
Definition deviceDelivers (processor : nat) (pcmBlob : PcmBlob) (rms : Q)
  : Js unit :=
  fun w =>
    match nth_error (processors (browser w)) processor with
    | Some p =>
        match proc_onaudioprocess p, proc_connected p with
        | Some sessionPromise, true => onaudioprocess sessionPromise pcmBlob rms w
        | _, _ => Returned tt w
        end
    | None => Returned tt w
    end.

Inductive Event : Type :=
| Connect (env : Environment) (config : VoiceConfig)
    (clonedStyleInstruction : option string)
| Disconnect
| UpdateVoiceParams (newConfig : VoiceConfig) (newClonedStyle : option string)
| Opened (session : nat)
| Message (session : nat) (currentTime : Q) (message : LiveServerMessage)
| ChannelClosed (session : nat)
| ChannelError (session : nat) (err : JsValue)
| Finished (source : nat)
| Ended (source : nat)
| AudioProcess (processor : nat) (pcmBlob : PcmBlob) (rms : Q).

Definition handle (e : Event) : Js unit :=
  match e with
  | Connect env config style => connect env config style
  | Disconnect => disconnect
  | UpdateVoiceParams newConfig newClonedStyle =>
      updateVoiceParams newConfig newClonedStyle
  | Opened session => channelOpens session
  | Message session currentTime message =>
      channelDelivers session currentTime message
  | ChannelClosed session => channelCloses session
  | ChannelError session err => channelFails session err
  | Finished source => playbackFinishes source
  | Ended source => sourceEnds source
  | AudioProcess processor pcmBlob rms => deviceDelivers processor pcmBlob rms
  end.

Definition step (w : World) (e : Event) : World := after (handle e w).

(** The world after a history of calls and callbacks, each run to its end
    before the next begins: the worlds the hook can reach, in the words of
    the statements below. A [Disconnect] is a call that runs alone. *)
Definition run (history : list Event) (w : World) : World :=
  fold_left step history w.

(** ** Notions the statements use *)

(** A run of chunks handed to the scheduler one after the other: each
    arrival pairs the device time read at that moment with the chunk. *)
Fixpoint enqueueAll (ctx : nat) (arrivals : list (Q * AudioBuffer))
  : Js unit :=
  match arrivals with
  | [] => ret tt
  | (currentTime, audioBuffer) :: rest =>
      schedulePlayback ctx currentTime audioBuffer ;; enqueueAll ctx rest
  end.

(** Start time and length of the playback a source node was given. *)
Definition slot (n : AudioBufferSourceNode) : option (Q * Q) :=
  match src_startedAt n, src_buffer n with
  | Some startAt, Some buffer => Some (startAt, duration buffer)
  | _, _ => None
  end.

(** Consecutive nodes start in order, none before its predecessor is
    through. *)
Fixpoint gapless (nodes : list AudioBufferSourceNode) : bool :=
  match nodes with
  | n1 :: ((n2 :: _) as rest) =>
      match slot n1, slot n2 with
      | Some (s1, d1), Some (s2, _) =>
          Qle_bool s1 s2 && Qle_bool (s1 + d1) s2
      | _, _ => false
      end && gapless rest
  | _ => true
  end.

(** The node [schedulePlayback] leaves in the heap. *)
Definition scheduledNode (ctx : nat) (startAt : Q) (audioBuffer : AudioBuffer)
  : AudioBufferSourceNode :=
  {| src_ctx := ctx; src_buffer := Some audioBuffer; src_connected := true;
     src_startedAt := Some startAt; src_stopped := false;
     src_finished := false; src_notified := false |}.

(** A source node makes no sound any more. *)
Definition silenced (n : AudioBufferSourceNode) : bool :=
  src_stopped n || src_finished n.

(** The configuration [App] starts with. *)
Definition INITIAL_CONFIG : VoiceConfig :=
  {| voiceName := "Kore"; speed := 1; pitch := 0; tone := "Professional";
     systemInstruction := "You are an advanced voice AI. Respond succinctly.";
     activeClonedVoiceId := None |}.

(** [{ ...c, speed: v }] *)
Definition withSpeed (v : Q) (c : VoiceConfig) : VoiceConfig :=
  {| voiceName := voiceName c; speed := v; pitch := pitch c; tone := tone c;
     systemInstruction := systemInstruction c;
     activeClonedVoiceId := activeClonedVoiceId c |}.

(** A browser that has the key and grants the microphone. *)
Definition friendly : Environment :=
  {| API_KEY := Some "key"%string; microphone := Web.Granted |}.

(** [try { source.stop(); } catch (e) {}] seen from the heap of sources. *)
Definition forceStop (ns : list AudioBufferSourceNode) (source : nat)
  : list AudioBufferSourceNode :=
  match nth_error ns source with
  | Some n => if Web.started n then update source Web.halt ns else ns
  | None => ns
  end.

(** A context ref is either [null] or points to a context that is open. *)
Definition refOpen (heap : list AudioContext) (r : option nat) : Prop :=
  match r with
  | Some c => exists x, nth_error heap c = Some x /\ ctx_closed x = false
  | None => True
  end.

(** What holds of the hook between any two calls or callbacks: context
    refs name open, distinct contexts; pending sources have been started;
    the error is absent while connecting and present in the error state. *)
Record Consistent (w : World) : Prop := {
  input_open :
    refOpen (contexts (browser w)) (inputAudioContextRef (hook w));
  output_open :
    refOpen (contexts (browser w)) (outputAudioContextRef (hook w));
  contexts_apart :
    forall c, inputAudioContextRef (hook w) = Some c ->
              outputAudioContextRef (hook w) <> Some c;
  pending_started :
    forall source, In source (scheduledSourcesRef (hook w)) ->
      exists n,
        nth_error (bufferSources (browser w)) source = Some n /\
        Web.started n = true;
  connecting_clean :
    connectionState (hook w) = CONNECTING -> error (hook w) = None;
  error_reported :
    connectionState (hook w) = ERROR -> error (hook w) <> None
}.

(** Two worlds that differ in their channels at most. *)
Definition sameButSessions (w w' : World) : Prop :=
  hook w' = hook w /\
  stateLog w' = stateLog w /\
  contexts (browser w') = contexts (browser w) /\
  streams (browser w') = streams (browser w) /\
  micSources (browser w') = micSources (browser w) /\
  processors (browser w') = processors (browser w) /\
  bufferSources (browser w') = bufferSources (browser w).

(** The hook after a teardown: device refs are [null], the scheduler is
    reset, and the session [sessionRef] still names has been asked to
    close (or will be, as soon as its channel opens). *)
Record TornDown (w : World) : Prop := {
  td_stream : streamRef (hook w) = None;
  td_processor : processorRef (hook w) = None;
  td_inputSource : inputSourceRef (hook w) = None;
  td_input : inputAudioContextRef (hook w) = None;
  td_output : outputAudioContextRef (hook w) = None;
  td_state : connectionState (hook w) = DISCONNECTED;
  td_volume : volume (hook w) = 0;
  td_pending : scheduledSourcesRef (hook w) = JsSet.empty;
  td_next : nextStartTimeRef (hook w) = 0;
  td_session :
    forall s, sessionRef (hook w) = Some s -> sessionState w s <> Some Open
}.

(** What of a channel can be seen from outside: all but the callbacks
    still waiting for it to open. *)
Definition visible (s : LiveSession)
  : ChannelState * string * SystemInstruction * list RealtimeInput :=
  (chan_state s, chan_voiceName s, chan_systemInstruction s, chan_sent s).

(** What of a world can be observed: the hook, every device object and the
    visible part of every channel. *)
Definition observable (w : World) :=
  (hook w,
   contexts (browser w), streams (browser w), micSources (browser w),
   processors (browser w), bufferSources (browser w),
   map visible (sessions (browser w))).

(** Device handles that are open: contexts not closed, streams with live
    tracks. *)
Definition openHandles (w : World) : nat :=
  List.length (filter (fun c => negb (ctx_closed c)) (contexts (browser w)))
  + List.length
      (filter (fun s => negb (stream_stopped s)) (streams (browser w))).

(** A chunk of [frames] frames at ten frames a second. *)
Definition chunk (frames : nat) : AudioBuffer :=
  {| buf_length := frames; buf_sampleRate := 10 |}.

Definition audioMessage (frames : nat) : LiveServerMessage :=
  {| inlineData := Some (Decodes (chunk frames)); interrupted := false |}.

Definition interruptionMessage : LiveServerMessage :=
  {| inlineData := None; interrupted := true |}.

(** A browser that has the key and refuses the microphone. *)
Definition refusing : Environment :=
  {| API_KEY := Some "key"%string;
     microphone := Web.Rejected (JsError "Permission denied") |}.

(** A browser without the key. *)
Definition keyless : Environment :=
  {| API_KEY := None; microphone := Web.Granted |}.

(** [err instanceof Error ? err.message : "Failed to connect"] *)
Definition thrownText (reason : JsValue) : string :=
  match reason with
  | JsError message => message
  | JsOther _ => "Failed to connect"
  end.

(** [err instanceof Error ? err.message : String(err)] *)
Definition reportedText (reason : JsValue) : string :=
  match reason with
  | JsError message => message
  | JsOther text => text
  end.

(** ** types.ts: cloned voices *)

Record ClonedVoice : Type := {
  id : string;
  name : string;
  baseVoice : string;
  styleInstruction : string;
  tags : list string
}.

(** ** App *)

(** The [useState] cells of [App]. *)
Record AppState : Type := {
  config : VoiceConfig;
  showCloner : bool;
  clonedVoices : list ClonedVoice;
  isMicOn : bool
}.

(** [{ ...prev, voiceName, activeClonedVoiceId }] *)
Definition withVoice (voice : string) (active : option string)
  (c : VoiceConfig) : VoiceConfig :=
  {| voiceName := voice; speed := speed c; pitch := pitch c; tone := tone c;
     systemInstruction := systemInstruction c;
     activeClonedVoiceId := active |}.

(** [{ ...v, name: newName }] *)
Definition withName (newName : string) (v : ClonedVoice) : ClonedVoice :=
  {| id := id v; name := newName; baseVoice := baseVoice v;
     styleInstruction := styleInstruction v; tags := tags v |}.

Definition initialApp (saved : list ClonedVoice) : AppState :=
  {| config := INITIAL_CONFIG; showCloner := false; clonedVoices := saved;
     isMicOn := true |}.

(** [v.id === activeClonedVoiceId], the right side a string, [null] or
    [undefined]. *)
Definition hasId (activeClonedVoiceId : option string) (v : ClonedVoice)
  : bool :=
  match activeClonedVoiceId with
  | Some wanted => String.eqb (id v) wanted
  | None => false
  end.

(** [activeClonedVoiceId === target], the right side a string. *)
Definition sameText (activeClonedVoiceId : option string) (target : string)
  : bool :=
  match activeClonedVoiceId with
  | Some active => String.eqb active target
  | None => false
  end.

(** [clonedVoices.find(v => v.id === config.activeClonedVoiceId)] *)
Definition activeClone (app : AppState) : option ClonedVoice :=
  find (hasId (activeClonedVoiceId (config app))) (clonedVoices app).

(** [activeClone?.styleInstruction], the second argument of the hook. *)
Definition activeStyle (app : AppState) : option string :=
  option_map styleInstruction (activeClone app).

Definition handleToggleConnect (env : Environment) (app : AppState)
  : Js unit :=
  state <- read connectionState ;;
  if ConnectionState_eqb state CONNECTED
     || ConnectionState_eqb state CONNECTING
  then disconnect
  else connect env (config app) (activeStyle app).

Definition handleApplySettings (app : AppState) : Js unit :=
  updateVoiceParams (config app) (activeStyle app).

Definition handleCloneCreated (voice : ClonedVoice) (app : AppState)
  : AppState :=
  {| config := withVoice (baseVoice voice) (Some (id voice)) (config app);
     showCloner := false;
     clonedVoices := clonedVoices app ++ [voice];
     isMicOn := isMicOn app |}.

Definition handleRenameClone (target newName : string) (app : AppState)
  : AppState :=
  {| config := config app;
     showCloner := showCloner app;
     clonedVoices :=
       map (fun v => if String.eqb (id v) target then withName newName v
                     else v) (clonedVoices app);
     isMicOn := isMicOn app |}.

(** The [onDeleteClone] handler [App] gives to [VoiceControls]. *)
Definition onDeleteClone (target : string) (app : AppState) : AppState :=
  {| config :=
       if sameText (activeClonedVoiceId (config app)) target
       then withVoice "Kore" None (config app)
       else config app;
     showCloner := showCloner app;
     clonedVoices :=
       filter (fun v => negb (String.eqb (id v) target)) (clonedVoices app);
     isMicOn := isMicOn app |}.

(** [setConfig(c)], which [VoiceControls] calls as [onChange]. *)
Definition setConfig (c : VoiceConfig) (app : AppState) : AppState :=
  {| config := c; showCloner := showCloner app;
     clonedVoices := clonedVoices app; isMicOn := isMicOn app |}.

(** The [disabled] prop [App] gives to [VoiceControls]. *)
Definition controlsDisabled (w : World) : bool :=
  ConnectionState_eqb (connectionState (hook w)) CONNECTING.

(** ** components/VoiceControls *)

Definition VOICE_NAMES : list string :=
  ["Kore"; "Fenrir"; "Puck"; "Charon"; "Zephyr"]%string.

Definition TONES : list string :=
  ["Cheerful"; "Professional"; "Calm"; "Authoritative"; "Whispery";
   "Energetic"]%string.

(** The [useState] cells of [VoiceControls]. *)
Record ControlsState : Type := {
  editingId : option string;
  editName : string
}.

(** A key of [VoiceConfig] with a value for it: the arguments of
    [handleChange]. *)
Inductive ConfigChange : Type :=
| ChangeVoiceName (v : string)
| ChangeSpeed (v : Q)
| ChangePitch (v : Q)
| ChangeTone (v : string)
| ChangeSystemInstruction (v : string)
| ChangeActiveClonedVoiceId (v : option string).

(** [onChange({ ...config, [key]: value })] *)
Definition handleChange (change : ConfigChange) (c : VoiceConfig)
  : VoiceConfig :=
  match change with
  | ChangeVoiceName v =>
      {| voiceName := v; speed := speed c; pitch := pitch c; tone := tone c;
         systemInstruction := systemInstruction c;
         activeClonedVoiceId := activeClonedVoiceId c |}
  | ChangeSpeed v => withSpeed v c
  | ChangePitch v =>
      {| voiceName := voiceName c; speed := speed c; pitch := v;
         tone := tone c; systemInstruction := systemInstruction c;
         activeClonedVoiceId := activeClonedVoiceId c |}
  | ChangeTone v =>
      {| voiceName := voiceName c; speed := speed c; pitch := pitch c;
         tone := v; systemInstruction := systemInstruction c;
         activeClonedVoiceId := activeClonedVoiceId c |}
  | ChangeSystemInstruction v =>
      {| voiceName := voiceName c; speed := speed c; pitch := pitch c;
         tone := tone c; systemInstruction := v;
         activeClonedVoiceId := activeClonedVoiceId c |}
  | ChangeActiveClonedVoiceId v => withVoice (voiceName c) v c
  end.

Definition handleVoiceSelect (voice : string) (c : VoiceConfig)
  : VoiceConfig :=
  withVoice voice None c.

(** The config handed to [onChange], if the handler gets that far. *)
Definition handleCloneSelect (st : ControlsState) (clone : ClonedVoice)
  (c : VoiceConfig) : option VoiceConfig :=
  if truthy (editingId st) then None
  else Some (withVoice (baseVoice clone) (Some (id clone)) c).

Definition startEditing (clone : ClonedVoice) (st : ControlsState)
  : ControlsState :=
  {| editingId := Some (id clone); editName := name clone |}.

Definition cancelEdit (st : ControlsState) : ControlsState :=
  {| editingId := None; editName := editName st |}.

(** [config.voiceName === name && !config.activeClonedVoiceId]: the preset
    button drawn as selected. *)
Definition presetSelected (voice : string) (c : VoiceConfig) : bool :=
  String.eqb (voiceName c) voice && negb (truthy (activeClonedVoiceId c)).

(** [config.activeClonedVoiceId === clone.id]: the clone row drawn as
    selected. *)
Definition cloneSelected (clone : ClonedVoice) (c : VoiceConfig) : bool :=
  hasId (activeClonedVoiceId c) clone.

(** [{disabled && (<button onClick={onApply}> ...)}]: whether the button
    "Apply Changes Live" is drawn. *)
Definition applyButtonShown (disabled : bool) : bool := disabled.

(** ** components/VoiceCloner *)

(** The fields of the parsed reply the component reads; a field is [None]
    when the reply lacks it. *)
Record CloneFields : Type := {
  reply_name : option string;
  reply_baseVoice : option string;
  reply_styleInstruction : option string;
  reply_tags : option (list string)
}.

(** What comes back from [generateContent] and [JSON.parse]: the request
    is rejected, the reply has no text (so ['{}'] is parsed), the text
    does not parse (or parses to [null], whose fields cannot be read), or
    it parses to an object. *)
Inductive Reply : Type :=
| RequestFails
| NoText
| Unparsable
| Parsed (result : CloneFields).

(** The [useState] cells of [VoiceCloner]; a blob is its bytes. *)
Record ClonerState : Type := {
  isRecording : bool;
  isAnalyzing : bool;
  recordingTime : nat;
  audioBlob : option string
}.

Definition setIsAnalyzing (v : bool) (st : ClonerState) : ClonerState :=
  {| isRecording := isRecording st; isAnalyzing := v;
     recordingTime := recordingTime st; audioBlob := audioBlob st |}.

(** [value || fallback] on a string that may be missing. *)
Definition orElse (value : option string) (fallback : string) : string :=
  if truthy value then textOf value else fallback.

(** [value || fallback] on an array that may be missing: every array is
    truthy, the empty one too. *)
Definition orElseTags (value : option (list string)) (fallback : list string)
  : list string :=
  match value with
  | Some given => given
  | None => fallback
  end.

Definition newVoice (randomUUID : string) (result : CloneFields)
  : ClonedVoice :=
  {| id := randomUUID;
     name := orElse (reply_name result) "Custom Voice";
     baseVoice := orElse (reply_baseVoice result) "Kore";
     styleInstruction :=
       orElse (reply_styleInstruction result) "Speak naturally.";
     tags := orElseTags (reply_tags result) ["Custom"%string] |}.

Definition noFields : CloneFields :=
  {| reply_name := None; reply_baseVoice := None;
     reply_styleInstruction := None; reply_tags := None |}.

(** [analyzeAndClone]: the state it leaves and the voice it hands to
    [onCloneCreated], if any. [base64Audio] is what [blobToBase64] of
    [utils/audio] yields, [None] when it rejects; [randomUUID] is the value
    of [crypto.randomUUID()]. *)
Definition analyzeAndClone (env : Environment) (base64Audio : option string)
  (reply : Reply) (randomUUID : string) (st : ClonerState)
  : ClonerState * option ClonedVoice :=
  match audioBlob st with
  | None => (st, None)
  | Some _ =>
      let st := setIsAnalyzing true st in
      let created :=
        match base64Audio with
        | None => None
        | Some _ =>
            if negb (truthy (API_KEY env)) then None
            else
              match reply with
              | RequestFails => None
              | NoText => Some (newVoice randomUUID noFields)
              | Unparsable => None
              | Parsed result => Some (newVoice randomUUID result)
              end
        end in
      (setIsAnalyzing false st, created)
  end.

(** The "Retry" button. *)
Definition retry (st : ClonerState) : ClonerState :=
  {| isRecording := isRecording st; isAnalyzing := isAnalyzing st;
     recordingTime := 0; audioBlob := None |}.

(** [App] with the cloner open: the analysis of a recording, and what
    [handleCloneCreated] makes of its result. *)
Definition cloneFromRecording (env : Environment)
  (base64Audio : option string) (reply : Reply) (randomUUID : string)
  (st : ClonerState) (app : AppState) : ClonerState * AppState :=
  match analyzeAndClone env base64Audio reply randomUUID st with
  | (st', Some voice) => (st', handleCloneCreated voice app)
  | (st', None) => (st', app)
  end.

(** ** components/AudioVisualizer *)

(** [analyser.frequencyBinCount]: half the FFT size. *)
Definition frequencyBinCount (analyser : AnalyserNode) : nat :=
  fftSize analyser / 2.

(** [array.filter((x, i) => keep x i)], [i] counting from [from]. *)
Fixpoint filterFrom {A : Type} (keep : A -> nat -> bool) (from : nat)
  (array : list A) : list A :=
  match array with
  | [] => []
  | x :: rest =>
      if keep x from then x :: filterFrom keep (S from) rest
      else filterFrom keep (S from) rest
  end.

Definition factor : nat := 2.

(** [chartData.filter((_, i) => i % factor === 0)] *)
Definition simpleData (chartData : list nat) : list nat :=
  filterFrom (fun _ i => Nat.eqb (i mod factor) 0) 0 chartData.

(** [d3.scaleLinear().domain([0, bufferLength]).range([0, width])], in
    exact arithmetic. *)
Definition xScale (bufferLength : nat) (width : Q) (i : nat) : Q :=
  inject_Z (Z.of_nat i) * width / inject_Z (Z.of_nat bufferLength).

(** [isPlaying ? '#4f46e5' : '#334155'] *)
Definition stroke (isPlaying : bool) : string :=
  if isPlaying then "#4f46e5" else "#334155".

(** ** The scheduler and the devices over a whole history *)

(** Events after which the cursor may stand lower than before. *)
Definition resets (e : Event) : bool :=
  match e with
  | Disconnect => true
  | Message _ _ message => interrupted message
  | _ => false
  end.

(** What the scheduler works on: cursor, pending set, source nodes. *)
Definition schedulerView (w : World)
  : Q * JsSet.t * list AudioBufferSourceNode :=
  (nextStartTimeRef (hook w), scheduledSourcesRef (hook w),
   bufferSources (browser w)).

(** What holds of the scheduler between any two calls or callbacks. *)
Record Orderly (w : World) : Prop := {
  cursor_nonneg : (0 <= nextStartTimeRef (hook w))%Q;
  sources_complete :
    forall i n, nth_error (bufferSources (browser w)) i = Some n ->
      src_connected n = true /\
      exists startAt buffer,
        src_startedAt n = Some startAt /\ src_buffer n = Some buffer /\
        (0 <= startAt)%Q;
  pending_waiting :
    forall source, In source (scheduledSourcesRef (hook w)) ->
      exists n,
        nth_error (bufferSources (browser w)) source = Some n /\
        src_notified n = false;
  pending_distinct : NoDup (scheduledSourcesRef (hook w))
}.

Definition closeContext (c : AudioContext) : AudioContext :=
  {| ctx_sampleRate := ctx_sampleRate c; ctx_closed := true |}.

(** The heap of contexts after [close] on the context a ref names. *)
Definition closeAt (r : option nat) (heap : list AudioContext)
  : list AudioContext :=
  match r with
  | Some c => update c closeContext heap
  | None => heap
  end.

(** The heap of streams after the tracks of the stream a ref names were
    stopped. *)
Definition stopAt (r : option nat) (heap : list MediaStream)
  : list MediaStream :=
  match r with
  | Some s => update s (fun _ => {| stream_stopped := true |}) heap
  | None => heap
  end.

Definition unwireProcessor (p : ScriptProcessorNode) : ScriptProcessorNode :=
  {| proc_ctx := proc_ctx p; proc_bufferSize := proc_bufferSize p;
     proc_onaudioprocess := proc_onaudioprocess p; proc_connected := false |}.

Definition unwireMic (m : MediaStreamAudioSourceNode)
  : MediaStreamAudioSourceNode :=
  {| mic_ctx := mic_ctx m; mic_stream := mic_stream m;
     mic_connected := false |}.

Definition openContexts (heap : list AudioContext) : nat :=
  List.length (filter (fun c => negb (ctx_closed c)) heap).

Definition liveStreams (heap : list MediaStream) : nat :=
  List.length (filter (fun s => negb (stream_stopped s)) heap).

(** The world a [connect] that meets no failure leaves behind. *)
Definition connected (config : VoiceConfig)
  (clonedStyleInstruction : option string) (w : World) : World :=
  let inputCtx := List.length (contexts (browser w)) in
  let outputCtx := S inputCtx in
  {| hook :=
       {| connectionState := CONNECTING;
          volume := volume (hook w);
          error := None;
          inputAudioContextRef := Some inputCtx;
          outputAudioContextRef := Some outputCtx;
          streamRef := Some (List.length (streams (browser w)));
          processorRef := processorRef (hook w);
          inputSourceRef := inputSourceRef (hook w);
          sessionRef := Some (List.length (sessions (browser w)));
          nextStartTimeRef := nextStartTimeRef (hook w);
          scheduledSourcesRef := scheduledSourcesRef (hook w);
          analyserRef :=
            Some {| analyser_ctx := outputCtx; fftSize := 256;
                    analyser_toDestination := true |};
          gainNodeRef :=
            Some {| gain_ctx := outputCtx; gain_toAnalyser := true |} |};
     browser :=
       {| contexts :=
            contexts (browser w)
              ++ [{| ctx_sampleRate := PCM_SAMPLE_RATE; ctx_closed := false |};
                  {| ctx_sampleRate := OUTPUT_SAMPLE_RATE;
                     ctx_closed := false |}];
          streams := streams (browser w) ++ [{| stream_stopped := false |}];
          micSources := micSources (browser w);
          processors := processors (browser w);
          bufferSources := bufferSources (browser w);
          sessions :=
            sessions (browser w)
              ++ [{| chan_state := Pending;
                     chan_voiceName := voiceName config;
                     chan_systemInstruction :=
                       composeSystemInstruction config clonedStyleInstruction;
                     chan_sent := [];
                     chan_then := [] |}] |};
     stateLog := CONNECTING :: stateLog w |}.

(** Handles a [connect] opens: none without the key, the two contexts when
    the microphone is refused, contexts and stream otherwise. *)
Definition acquired (env : Environment) : nat :=
  if truthy (API_KEY env)
  then match microphone env with
       | Web.Granted => 3
       | Web.Rejected _ => 2
       end
  else 0.

(** The heap of sessions after [.then(session => session.close())
    .catch(() => {})] on the session promise a ref names. *)
Definition requestClose (r : option nat) (heap : list LiveSession)
  : list LiveSession :=
  match r with
  | Some s =>
      match nth_error heap s with
      | Some l =>
          match chan_state l with
          | Pending =>
              update s (fun l => Live.setThen (chan_then l ++ [ThenClose]) l)
                heap
          | Open => update s (Live.setState Closing) heap
          | Closing | Closed => heap
          end
      | None => heap
      end
  | None => heap
  end.

(** The world after a [connect] that succeeds and the opening of its
    channel. *)
Definition capturing (config : VoiceConfig)
  (clonedStyleInstruction : option string) (w : World) : World :=
  let inputCtx := List.length (contexts (browser w)) in
  let outputCtx := S inputCtx in
  let stream := List.length (streams (browser w)) in
  let session := List.length (sessions (browser w)) in
  {| hook :=
       {| connectionState := CONNECTED;
          volume := volume (hook w);
          error := None;
          inputAudioContextRef := Some inputCtx;
          outputAudioContextRef := Some outputCtx;
          streamRef := Some stream;
          processorRef := Some (List.length (processors (browser w)));
          inputSourceRef := Some (List.length (micSources (browser w)));
          sessionRef := Some session;
          nextStartTimeRef := nextStartTimeRef (hook w);
          scheduledSourcesRef := scheduledSourcesRef (hook w);
          analyserRef :=
            Some {| analyser_ctx := outputCtx; fftSize := 256;
                    analyser_toDestination := true |};
          gainNodeRef :=
            Some {| gain_ctx := outputCtx; gain_toAnalyser := true |} |};
     browser :=
       {| contexts :=
            contexts (browser w)
              ++ [{| ctx_sampleRate := PCM_SAMPLE_RATE; ctx_closed := false |};
                  {| ctx_sampleRate := OUTPUT_SAMPLE_RATE;
                     ctx_closed := false |}];
          streams := streams (browser w) ++ [{| stream_stopped := false |}];
          micSources :=
            micSources (browser w)
              ++ [{| mic_ctx := inputCtx; mic_stream := stream;
                     mic_connected := true |}];
          processors :=
            processors (browser w)
              ++ [{| proc_ctx := inputCtx; proc_bufferSize := 4096;
                     proc_onaudioprocess := Some session;
                     proc_connected := true |}];
          bufferSources := bufferSources (browser w);
          sessions :=
            sessions (browser w)
              ++ [{| chan_state := Open;
                     chan_voiceName := voiceName config;
                     chan_systemInstruction :=
                       composeSystemInstruction config clonedStyleInstruction;
                     chan_sent := [];
                     chan_then := [] |}] |};
     stateLog := CONNECTED :: CONNECTING :: stateLog w |}.

(** * Proofs *)

Section ListFacts.

Context {A : Type}.

Lemma nth_error_update_eq (i : nat) (f : A -> A) (l : list A) :
  nth_error (update i f l) i = option_map f (nth_error l i).
Proof.
  revert i; induction l as [|x l IH]; intros [|i]; simpl; auto.
Qed.

Lemma nth_error_update_neq (i j : nat) (f : A -> A) (l : list A) :
  i <> j -> nth_error (update i f l) j = nth_error l j.
Proof.
  revert i j; induction l as [|x l IH]; intros [|i] [|j] Hij; simpl; auto.
  - congruence.
Qed.

Lemma nth_error_last (l : list A) (x : A) :
  nth_error (l ++ [x]) (List.length l) = Some x.
Proof. induction l; simpl; auto. Qed.

Lemma update_last (f : A -> A) (l : list A) (x : A) :
  update (List.length l) f (l ++ [x]) = l ++ [f x].
Proof. induction l; simpl; congruence. Qed.

Lemma update_fixed (i : nat) (f : A -> A) (l : list A) (x : A) :
  nth_error l i = Some x -> f x = x -> update i f l = l.
Proof.
  revert i; induction l as [|y l IH]; intros [|i] Hnth Hf; simpl in *.
  - discriminate.
  - discriminate.
  - injection Hnth as ->. now rewrite Hf.
  - f_equal. now apply IH.
Qed.

End ListFacts.

Lemma Math_max_ge_l (a b : Q) : (a <= Math_max a b)%Q.
Proof.
  unfold Math_max. destruct (Qle_bool a b) eqn:E.
  - now apply Qle_bool_iff.
  - apply Qle_refl.
Qed.

Lemma Math_max_ge_r (a b : Q) : (b <= Math_max a b)%Q.
Proof.
  unfold Math_max. destruct (Qle_bool a b) eqn:E.
  - apply Qle_refl.
  - apply Qlt_le_weak, Qnot_le_lt. intro H.
    apply Qle_bool_iff in H. congruence.
Qed.

Lemma duration_nonneg (b : AudioBuffer) : (0 <= duration b)%Q.
Proof. unfold duration, Qle; simpl. lia. Qed.

Lemma schedulePlayback_effect (ctx : nat) (currentTime : Q)
  (audioBuffer : AudioBuffer) (w : World) :
  let startAt := Math_max (nextStartTimeRef (hook w)) currentTime in
  schedulePlayback ctx currentTime audioBuffer w =
  Returned tt
    {| hook :=
         with_scheduledSourcesRef
           (JsSet.add (List.length (bufferSources (browser w)))
              (scheduledSourcesRef (hook w)))
           (with_nextStartTimeRef (startAt + duration audioBuffer)%Q (hook w));
       browser :=
         with_bufferSources
           (bufferSources (browser w)
              ++ [scheduledNode ctx startAt audioBuffer])
           (browser w);
       stateLog := stateLog w |}.
Proof.
  destruct w as [h b l]. destruct h, b.
  unfold schedulePlayback, Web.createBufferSource, Web.setBuffer,
    Web.connectSource, Web.start, Web.modifySource, bind, read, look, assign,
    mutate, ret; simpl.
  rewrite !update_last; simpl.
  rewrite nth_error_last; simpl.
  rewrite !update_last; simpl.
  reflexivity.
Qed.

(** What a run of enqueues leaves behind: one node per arrival, appended in
    arrival order, the first not before the cursor it found. *)
Lemma enqueueAll_effect (ctx : nat) (arrivals : list (Q * AudioBuffer)) :
  forall w : World,
  exists created w',
    enqueueAll ctx arrivals w = Returned tt w' /\
    bufferSources (browser w') = bufferSources (browser w) ++ created /\
    Forall2
      (fun arrival n =>
         src_buffer n = Some (snd arrival) /\
         exists startAt,
           src_startedAt n = Some startAt /\ (fst arrival <= startAt)%Q)
      arrivals created /\
    (forall n rest, created = n :: rest ->
       exists startAt,
         src_startedAt n = Some startAt /\
         (nextStartTimeRef (hook w) <= startAt)%Q) /\
    gapless created = true.
Proof.
  induction arrivals as [|[currentTime audioBuffer] arrivals IH]; intro w.
  - exists [], w. simpl. rewrite app_nil_r.
    repeat split; auto. intros n rest H. discriminate.
  - pose proof (schedulePlayback_effect ctx currentTime audioBuffer w) as E.
    simpl in E.
    set (startAt := Math_max (nextStartTimeRef (hook w)) currentTime) in *.
    match type of E with _ = Returned tt ?x => set (w1 := x) in * end.
    destruct (IH w1) as (created & w' & Hrun & Hsrc & Hall & Hhead & Hgap).
    exists (scheduledNode ctx startAt audioBuffer :: created), w'.
    split; [|split; [|split; [|split]]].
    + simpl. unfold bind. rewrite E. exact Hrun.
    + rewrite Hsrc. unfold w1; simpl. now rewrite <- app_assoc.
    + constructor; [|exact Hall]. simpl. split; [reflexivity|].
      exists startAt. split; [reflexivity|]. apply Math_max_ge_r.
    + intros n rest H. injection H as <- _.
      exists startAt. split; [reflexivity|]. apply Math_max_ge_l.
    + destruct created as [|n2 rest]; [reflexivity|].
      destruct (Hhead n2 rest eq_refl) as (s2 & Hs2 & Hle).
      inversion Hall as [|a n2' arrivals' rest' [Hbuf _] _ Ha Hc]; subst.
      change (gapless (scheduledNode ctx startAt audioBuffer :: n2 :: rest))
        with (match slot (scheduledNode ctx startAt audioBuffer), slot n2 with
              | Some (s1, d1), Some (s2, _) =>
                  Qle_bool s1 s2 && Qle_bool (s1 + d1) s2
              | _, _ => false
              end && gapless (n2 :: rest)).
      rewrite Hgap, andb_true_r.
      unfold slot at 2. rewrite Hs2, Hbuf.
      unfold slot, scheduledNode; simpl.
      unfold w1 in Hle; simpl in Hle.
      pose proof (duration_nonneg audioBuffer) as Hd.
      apply andb_true_iff; split; apply Qle_bool_iff; lra.
Qed.

(** C1. A message with decodable audio and no interruption flag is handled
    by one enqueue. Every enqueue raises the cursor [nextStartTimeRef] to
    the device time if that is later, starts the new source exactly at the
    cursor, moves the cursor on by the chunk's duration and adds the source
    to the pending set. Hence, for every run of chunks enqueued at
    arbitrary device times, the sources created start in arrival order,
    none before the device time of its arrival, and each starts no earlier
    than its predecessor's start plus its predecessor's duration. *)
Theorem enqueue_schedules_back_to_back :
  forall (ctx : nat) (w : World),
    (forall (currentTime : Q) (audioBuffer : AudioBuffer) (gain : GainNode),
       outputAudioContextRef (hook w) = Some ctx ->
       gainNodeRef (hook w) = Some gain ->
       onmessage currentTime
         {| inlineData := Some (Decodes audioBuffer); interrupted := false |}
         w =
       schedulePlayback ctx currentTime audioBuffer w) /\
    (forall (currentTime : Q) (audioBuffer : AudioBuffer),
       let startAt := Math_max (nextStartTimeRef (hook w)) currentTime in
       let w' := after (schedulePlayback ctx currentTime audioBuffer w) in
       returned (schedulePlayback ctx currentTime audioBuffer w) = true /\
       bufferSources (browser w') =
         bufferSources (browser w) ++ [scheduledNode ctx startAt audioBuffer] /\
       nextStartTimeRef (hook w') = (startAt + duration audioBuffer)%Q /\
       scheduledSourcesRef (hook w') =
         JsSet.add (List.length (bufferSources (browser w)))
           (scheduledSourcesRef (hook w))) /\
    (forall arrivals : list (Q * AudioBuffer),
       let w' := after (enqueueAll ctx arrivals w) in
       returned (enqueueAll ctx arrivals w) = true /\
       exists created,
         bufferSources (browser w') = bufferSources (browser w) ++ created /\
         Forall2
           (fun arrival n =>
              src_buffer n = Some (snd arrival) /\
              exists startAt,
                src_startedAt n = Some startAt /\ (fst arrival <= startAt)%Q)
           arrivals created /\
         gapless created = true).
Proof.
  intros ctx w. split; [|split].
  - intros currentTime audioBuffer gain Hctx Hgain.
    unfold onmessage, bind at 1, read at 1, bind at 1, read at 1.
    rewrite Hctx, Hgain. simpl.
    unfold bind at 1, bind at 1, decodeAudioData, ret at 1.
    rewrite schedulePlayback_effect. reflexivity.
  - intros currentTime audioBuffer.
    pose proof (schedulePlayback_effect ctx currentTime audioBuffer w) as E.
    simpl in *. rewrite E. simpl. auto.
  - intros arrivals.
    destruct (enqueueAll_effect ctx arrivals w)
      as (created & w' & Hrun & Hsrc & Hall & _ & Hgap).
    simpl. rewrite Hrun. simpl. split; [reflexivity|].
    exists created. auto.
Qed.

(** ** Live parameter update *)

(** C6. Outside of [CONNECTED], [updateVoiceParams] returns at once and
    leaves the whole world as it was: hook state, refs, scheduler, and
    every channel with what was sent on it or is waiting to be sent. *)
Theorem updateVoiceParams_noop_unless_connected :
  forall (w : World) (newConfig : VoiceConfig)
         (newClonedStyle : option string),
    connectionState (hook w) <> CONNECTED ->
    updateVoiceParams newConfig newClonedStyle w = Returned tt w.
Proof.
  intros w newConfig newClonedStyle Hstate.
  unfold updateVoiceParams, bind, read, ret.
  destruct (connectionState (hook w)); simpl; congruence.
Qed.

Lemma updateVoiceParams_noop_unless_connected_witness :
  let w :=
    run [Connect friendly INITIAL_CONFIG None; Opened 0;
         ChannelError 0 (JsError "network")] initialWorld in
  connectionState (hook w) = ERROR /\
  sessionRef (hook w) = Some 0%nat /\
  sessionState w 0 = Some Open /\
  updateVoiceParams
    {| voiceName := "Kore"; speed := 15 # 10; pitch := 0; tone := "Calm";
       systemInstruction := "Be brief."; activeClonedVoiceId := None |}
    None w = Returned tt w.
Proof.
  intro w.
  split; [reflexivity|]. split; [reflexivity|]. split; [reflexivity|].
  apply updateVoiceParams_noop_unless_connected.
  vm_compute. discriminate.
Defined.

Lemma string_append_assoc (a b c : string) :
  ((a ++ b) ++ c = a ++ (b ++ c))%string.
Proof. induction a as [|x a IH]; simpl; congruence. Qed.

Lemma speedQualifier_faster (c : VoiceConfig) :
  speedQualifier c = "faster"%string <-> (12 # 10 < speed c)%Q.
Proof.
  unfold speedQualifier, Qgtb, Qltb.
  destruct (Qle_bool (speed c) (12 # 10)) eqn:E1; simpl.
  - apply Qle_bool_iff in E1. split.
    + destruct (Qle_bool (8 # 10) (speed c)); simpl; discriminate.
    + intro H. exfalso. lra.
  - split; [intros _|reflexivity].
    apply Qnot_le_lt. intro H. apply Qle_bool_iff in H. congruence.
Qed.

Lemma speedQualifier_slower (c : VoiceConfig) :
  speedQualifier c = "slower"%string <-> (speed c < 8 # 10)%Q.
Proof.
  unfold speedQualifier, Qgtb, Qltb.
  destruct (Qle_bool (speed c) (12 # 10)) eqn:E1; simpl.
  - destruct (Qle_bool (8 # 10) (speed c)) eqn:E2; simpl.
    + apply Qle_bool_iff in E2. split; [discriminate|]. intro H. exfalso. lra.
    + split; [intros _|reflexivity].
      apply Qnot_le_lt. intro H. apply Qle_bool_iff in H. congruence.
  - split; [discriminate|]. intro H. exfalso.
    assert (speed c <= 12 # 10)%Q as H' by lra.
    apply Qle_bool_iff in H'. congruence.
Qed.

Lemma speedQualifier_normal (c : VoiceConfig) :
  speedQualifier c = "normal"%string <->
  (8 # 10 <= speed c)%Q /\ (speed c <= 12 # 10)%Q.
Proof.
  unfold speedQualifier, Qgtb, Qltb.
  destruct (Qle_bool (speed c) (12 # 10)) eqn:E1; simpl.
  - apply Qle_bool_iff in E1.
    destruct (Qle_bool (8 # 10) (speed c)) eqn:E2; simpl.
    + apply Qle_bool_iff in E2. tauto.
    + split; [discriminate|]. intros [H _].
      apply Qle_bool_iff in H. congruence.
  - split; [discriminate|]. intros [_ H].
    apply Qle_bool_iff in H. congruence.
Qed.

(** C7. While [CONNECTED], with [sessionRef] on an open channel,
    [updateVoiceParams] sends exactly one text input on that channel and
    changes nothing else. The text is the fixed header, then the speed
    qualifier, the tone label and, for a non-empty cloned style, the style
    text; the qualifier is "faster" exactly for a speed above 1.2, "slower"
    exactly for a speed below 0.8 and "normal" exactly in between. *)
Theorem updateVoiceParams_sends_instruction :
  forall (w : World) (newConfig : VoiceConfig)
         (newClonedStyle : option string) (session : nat) (s : LiveSession),
    connectionState (hook w) = CONNECTED ->
    sessionRef (hook w) = Some session ->
    nth_error (sessions (browser w)) session = Some s ->
    chan_state s = Open ->
    let instruction := voiceUpdateInstruction newConfig newClonedStyle in
    let w' := after (updateVoiceParams newConfig newClonedStyle w) in
    returned (updateVoiceParams newConfig newClonedStyle w) = true /\
    nth_error (sessions (browser w')) session =
      Some (Live.push (Text instruction) s) /\
    chan_sent (Live.push (Text instruction) s) =
      chan_sent s ++ [Text instruction] /\
    (forall other, other <> session ->
       nth_error (sessions (browser w')) other =
       nth_error (sessions (browser w)) other) /\
    hook w' = hook w /\
    instruction =
      ("[System Update] Adjust voice settings: Speed: "
         ++ speedQualifier newConfig ++ ". Tone: " ++ tone newConfig ++ "."
         ++ (if truthy newClonedStyle
             then " Style: " ++ textOf newClonedStyle
             else EmptyString))%string /\
    (speedQualifier newConfig = "faster"%string <->
       (12 # 10 < speed newConfig)%Q) /\
    (speedQualifier newConfig = "slower"%string <->
       (speed newConfig < 8 # 10)%Q) /\
    (speedQualifier newConfig = "normal"%string <->
       (8 # 10 <= speed newConfig)%Q /\ (speed newConfig <= 12 # 10)%Q).
Proof.
  intros w newConfig newClonedStyle session s Hstate Href Hnth Hopen
    instruction w'.
  assert (updateVoiceParams newConfig newClonedStyle w =
          Returned tt
            {| hook := hook w;
               browser :=
                 with_sessions
                   (update session (Live.push (Text instruction))
                      (sessions (browser w))) (browser w);
               stateLog := stateLog w |}) as E.
  { unfold updateVoiceParams, Live.andThen, Live.resume,
      Live.sendRealtimeInput, Live.modifySession, bind, read, look, mutate,
      ret.
    rewrite Hstate, Href; simpl. rewrite Hnth, Hopen; simpl.
    rewrite Hnth, Hopen. reflexivity. }
  subst w'. rewrite E. simpl.
  split; [reflexivity|].
  split; [rewrite nth_error_update_eq, Hnth; reflexivity|].
  split; [reflexivity|].
  split; [intros other Hother; now apply nth_error_update_neq|].
  split; [reflexivity|].
  split.
  { unfold instruction, voiceUpdateInstruction.
    destruct (truthy newClonedStyle); cbv zeta;
      rewrite !string_append_assoc; reflexivity. }
  split; [apply speedQualifier_faster|].
  split; [apply speedQualifier_slower|apply speedQualifier_normal].
Qed.

Lemma updateVoiceParams_sends_instruction_witness :
  let w := run [Connect friendly INITIAL_CONFIG None; Opened 0] initialWorld in
  let w' :=
    after (updateVoiceParams (withSpeed (15 # 10) INITIAL_CONFIG)
             (Some "warm"%string) w) in
  connectionState (hook w) = CONNECTED /\
  sessionRef (hook w) = Some 0%nat /\
  option_map chan_state (nth_error (sessions (browser w)) 0) = Some Open /\
  option_map chan_sent (nth_error (sessions (browser w')) 0) =
    Some [Text "[System Update] Adjust voice settings: Speed: faster. Tone: Professional. Style: warm"].
Proof.
  intros w w'.
  split; [reflexivity|]. split; [reflexivity|]. split; [reflexivity|].
  destruct (nth_error (sessions (browser w)) 0) as [s|] eqn:Hs;
    [|discriminate].
  destruct
    (@updateVoiceParams_sends_instruction w
       (withSpeed (15 # 10) INITIAL_CONFIG) (Some "warm"%string) 0%nat s
       eq_refl eq_refl Hs)
    as (_ & H & _).
  - vm_compute in Hs. injection Hs as <-. reflexivity.
  - subst w'. rewrite H. vm_compute in Hs. injection Hs as <-. reflexivity.
Defined.

(** ** Interruption *)

Lemma forceStop_effect (source : nat) (w : World) :
  tryCatch (Web.stop source) (fun _ => ret tt) w =
  Returned tt
    {| hook := hook w;
       browser :=
         with_bufferSources (forceStop (bufferSources (browser w)) source)
           (browser w);
       stateLog := stateLog w |}.
Proof.
  destruct w as [h b l]. destruct b.
  unfold tryCatch, Web.stop, Web.modifySource, forceStop, bind, look, mutate,
    throw, ret; simpl.
  destruct (nth_error bufferSources0 source) as [n|]; simpl;
    [destruct (Web.started n)|]; reflexivity.
Qed.

Lemma forEach_forceStop (pending : list nat) :
  forall w : World,
    forEach pending
      (fun source => tryCatch (Web.stop source) (fun _ => ret tt)) w =
    Returned tt
      {| hook := hook w;
         browser :=
           with_bufferSources
             (fold_left forceStop pending (bufferSources (browser w)))
             (browser w);
         stateLog := stateLog w |}.
Proof.
  induction pending as [|source pending IH]; intro w; simpl.
  - destruct w as [h b l]; destruct b; reflexivity.
  - unfold bind. rewrite forceStop_effect, IH. simpl.
    destruct w as [h b l]; destruct b; reflexivity.
Qed.

Lemma handleInterruption_effect (w : World) :
  handleInterruption w =
  Returned tt
    {| hook :=
         with_nextStartTimeRef 0
           (with_scheduledSourcesRef JsSet.empty (hook w));
       browser :=
         with_bufferSources
           (fold_left forceStop (scheduledSourcesRef (hook w))
              (bufferSources (browser w)))
           (browser w);
       stateLog := stateLog w |}.
Proof.
  unfold handleInterruption, bind at 1, read at 1.
  unfold bind at 1. rewrite forEach_forceStop.
  destruct w as [h b l]; destruct h, b; reflexivity.
Qed.

Lemma halt_silenced (n : AudioBufferSourceNode) :
  silenced (Web.halt n) = true.
Proof.
  unfold silenced, Web.halt.
  destruct (src_finished n) eqn:E; simpl; [rewrite E|]; auto using orb_true_r.
Qed.

Lemma halt_started (n : AudioBufferSourceNode) :
  Web.started (Web.halt n) = Web.started n.
Proof. unfold Web.halt. destruct (src_finished n); reflexivity. Qed.

Lemma halt_finished (n : AudioBufferSourceNode) :
  src_finished n = true -> Web.halt n = n.
Proof. unfold Web.halt. intros ->. reflexivity. Qed.

Lemma halt_keeps_silenced (n : AudioBufferSourceNode) :
  silenced n = true -> silenced (Web.halt n) = true.
Proof. intros _. apply halt_silenced. Qed.

(** One forced stop: every node stays where it is, started nodes stay
    started, silenced nodes stay silenced, finished nodes are untouched. *)
Lemma forceStop_node (ns : list AudioBufferSourceNode) (source i : nat)
  (n : AudioBufferSourceNode) :
  nth_error ns i = Some n ->
  exists n',
    nth_error (forceStop ns source) i = Some n' /\
    Web.started n' = Web.started n /\
    (silenced n = true -> silenced n' = true) /\
    (src_finished n = true -> n' = n) /\
    (i = source -> Web.started n = true -> silenced n' = true).
Proof.
  intros Hn. unfold forceStop.
  destruct (nth_error ns source) as [m|] eqn:Hm.
  - destruct (Web.started m) eqn:Hstarted.
    + destruct (Nat.eq_dec source i) as [->|Hneq].
      * rewrite nth_error_update_eq, Hn. simpl.
        exists (Web.halt n). split; [reflexivity|].
        split; [apply halt_started|].
        split; [apply halt_keeps_silenced|].
        split; [apply halt_finished|].
        intros _ _. apply halt_silenced.
      * rewrite nth_error_update_neq by assumption.
        exists n. do 4 (split; [auto|]). intros ->. congruence.
    + exists n. do 4 (split; [auto|]). intros -> H.
      rewrite Hn in Hm. injection Hm as <-. congruence.
  - exists n. do 4 (split; [auto|]). intros ->. congruence.
Qed.

Lemma forceStop_all_node (pending : list nat) :
  forall (ns : list AudioBufferSourceNode) (i : nat)
         (n : AudioBufferSourceNode),
    nth_error ns i = Some n ->
    exists n',
      nth_error (fold_left forceStop pending ns) i = Some n' /\
      Web.started n' = Web.started n /\
      (silenced n = true -> silenced n' = true) /\
      (src_finished n = true -> n' = n) /\
      (In i pending -> Web.started n = true -> silenced n' = true).
Proof.
  induction pending as [|source pending IH]; intros ns i n Hn; simpl.
  - exists n. do 4 (split; [auto|]). contradiction.
  - destruct (forceStop_node ns source i n Hn)
      as (n1 & Hn1 & Hst1 & Hsil1 & Hfin1 & Hhit1).
    destruct (IH _ _ _ Hn1) as (n2 & Hn2 & Hst2 & Hsil2 & Hfin2 & Hhit2).
    exists n2. split; [exact Hn2|].
    split; [congruence|].
    split; [auto|].
    split.
    + intros Hf. rewrite <- (Hfin1 Hf). apply Hfin2.
      rewrite (Hfin1 Hf). exact Hf.
    + intros [->|Hin] Hstarted.
      * apply Hsil2. now apply Hhit1.
      * apply Hhit2; [exact Hin|congruence].
Qed.

(** ** What every reachable world satisfies *)

Ltac open_world w :=
  destruct w as [[cs vol err inC outC str proc mic sess next pend an gain]
                 [ctxs strs mics procs srcs sesss] log].

Ltac js_unfold :=
  unfold Live.andThen, Live.resume, Live.close, Live.sendRealtimeInput,
    Live.modifySession, Live.connect,
    Web.stopTracks, Web.setProcessorConnected, Web.setMicConnected,
    Web.setOnaudioprocess, Web.createScriptProcessor,
    Web.createMediaStreamSource, Web.close, Web.newAudioContext,
    Web.getUserMedia, Web.markFinished, Web.markNotified, Web.modifySource,
    setConnectionState, setVolume, setError,
    tryCatch, throw, bind, read, look, assign, mutate, ret in *.

Ltac split_match :=
  match goal with
  | |- context [match ?x with _ => _ end] =>
      lazymatch x with
      | context [match _ with _ => _ end] => fail
      | _ => destruct x eqn:?
      end
  | |- context [if ?x then _ else _] =>
      lazymatch x with
      | context [match _ with _ => _ end] => fail
      | _ => destruct x eqn:?
      end
  end.

Ltac split_all := repeat (split_match; simpl in *).

Lemma sameButSessions_refl (w : World) : sameButSessions w w.
Proof. unfold sameButSessions. tauto. Qed.

Lemma sameButSessions_trans (w1 w2 w3 : World) :
  sameButSessions w1 w2 -> sameButSessions w2 w3 -> sameButSessions w1 w3.
Proof.
  unfold sameButSessions.
  intros (A1 & A2 & A3 & A4 & A5 & A6 & A7) (B1 & B2 & B3 & B4 & B5 & B6 & B7).
  repeat split; congruence.
Qed.

Lemma Consistent_sameButSessions (w w' : World) :
  sameButSessions w w' -> Consistent w -> Consistent w'.
Proof.
  intros (Hh & _ & Hc & _ & _ & _ & Hs) [H1 H2 H3 H4 H5 H6].
  constructor; unfold refOpen in *; rewrite ?Hh, ?Hc, ?Hs; assumption.
Qed.

Lemma resume_sessions (session : nat) (k : Continuation) (w : World) :
  exists w',
    Live.resume session k w = Returned tt w' /\ sameButSessions w w'.
Proof.
  open_world w. destruct k; js_unfold; simpl; split_all;
    eexists; (split; [reflexivity|]); unfold sameButSessions; simpl; tauto.
Qed.

Lemma andThen_sessions (session : nat) (k : Continuation) (w : World) :
  exists w',
    Live.andThen session k w = Returned tt w' /\ sameButSessions w w'.
Proof.
  open_world w. destruct k; js_unfold; simpl; split_all;
    eexists; (split; [reflexivity|]); unfold sameButSessions; simpl; tauto.
Qed.

Lemma forEach_resume_sessions (session : nat) (ks : list Continuation) :
  forall w : World,
  exists w',
    forEach ks (Live.resume session) w = Returned tt w' /\
    sameButSessions w w'.
Proof.
  induction ks as [|k ks IH]; intro w; simpl.
  - exists w. split; [reflexivity|apply sameButSessions_refl].
  - destruct (resume_sessions session k w) as (w1 & E1 & S1).
    destruct (IH w1) as (w2 & E2 & S2).
    exists w2. unfold bind. rewrite E1. split; [exact E2|].
    eapply sameButSessions_trans; eassumption.
Qed.

Lemma modifySession_sessions (session : nat) (f : LiveSession -> LiveSession)
  (w : World) :
  exists w',
    Live.modifySession session f w = Returned tt w' /\ sameButSessions w w'.
Proof.
  open_world w. js_unfold. eexists. split; [reflexivity|].
  unfold sameButSessions; simpl; tauto.
Qed.

Lemma bind_preserves {A B : Type} (P : World -> Prop) (m : Js A)
  (k : A -> Js B) (w : World) :
  P (after (m w)) ->
  (forall a w', P w' -> P (after (k a w'))) ->
  P (after (bind m k w)).
Proof.
  unfold bind. destruct (m w) as [a w'|e w']; simpl; auto.
Qed.

Lemma started_survives_update (i : nat)
  (f : AudioBufferSourceNode -> AudioBufferSourceNode)
  (ns : list AudioBufferSourceNode) :
  (forall n, Web.started (f n) = Web.started n) ->
  forall j n,
    nth_error ns j = Some n -> Web.started n = true ->
    exists n', nth_error (update i f ns) j = Some n' /\ Web.started n' = true.
Proof.
  intros Hf j n Hn Hs.
  destruct (Nat.eq_dec i j) as [->|Hneq].
  - rewrite nth_error_update_eq, Hn. simpl.
    exists (f n). split; [reflexivity|]. now rewrite Hf.
  - rewrite nth_error_update_neq by assumption. eauto.
Qed.

Lemma In_delete (x y : nat) (s : JsSet.t) :
  In x (JsSet.delete y s) -> In x s.
Proof. unfold JsSet.delete. intro H. apply filter_In in H. tauto. Qed.

Lemma In_add (x y : nat) (s : JsSet.t) :
  In x (JsSet.add y s) -> x = y \/ In x s.
Proof.
  unfold JsSet.add. destruct (JsSet.has y s); [tauto|].
  intro H. apply in_app_or in H. simpl in H. intuition.
Qed.

Ltac use_consistent H :=
  destruct H as [Hin Hout Hapart Hpend Hconn Herr]; simpl in *.

Lemma updateVoiceParams_sessions (newConfig : VoiceConfig)
  (newClonedStyle : option string) (w : World) :
  exists w',
    updateVoiceParams newConfig newClonedStyle w = Returned tt w' /\
    sameButSessions w w'.
Proof.
  unfold updateVoiceParams, bind at 1, read at 1, bind at 1, read at 1.
  destruct (negb (ConnectionState_eqb (connectionState (hook w)) CONNECTED)
            || negb (isSome (sessionRef (hook w)))).
  - exists w. split; [reflexivity|apply sameButSessions_refl].
  - destruct (sessionRef (hook w)) as [session|].
    + apply andThen_sessions.
    + exists w. split; [reflexivity|apply sameButSessions_refl].
Qed.

Lemma Consistent_updateVoiceParams (newConfig : VoiceConfig)
  (newClonedStyle : option string) (w : World) :
  Consistent w ->
  Consistent (after (updateVoiceParams newConfig newClonedStyle w)).
Proof.
  destruct (updateVoiceParams_sessions newConfig newClonedStyle w)
    as (w' & E & S).
  rewrite E. simpl. now apply Consistent_sameButSessions.
Qed.

Lemma Consistent_onaudioprocess (sessionPromise : nat) (pcmBlob : PcmBlob)
  (rms : Q) (w : World) :
  Consistent w ->
  Consistent (after (onaudioprocess sessionPromise pcmBlob rms w)).
Proof.
  intro H. unfold onaudioprocess. apply bind_preserves.
  - open_world w. use_consistent H. constructor; simpl; assumption.
  - intros _ w' H'.
    destruct (andThen_sessions sessionPromise (ThenSend (Media pcmBlob)) w')
      as (w'' & E & S).
    rewrite E. simpl. now apply Consistent_sameButSessions with w'.
Qed.

Lemma Consistent_deviceDelivers (processor : nat) (pcmBlob : PcmBlob)
  (rms : Q) (w : World) :
  Consistent w ->
  Consistent (after (deviceDelivers processor pcmBlob rms w)).
Proof.
  intro H. unfold deviceDelivers.
  destruct (nth_error (processors (browser w)) processor) as [p|];
    [|exact H].
  destruct (proc_onaudioprocess p); [|exact H].
  destruct (proc_connected p); [|exact H].
  now apply Consistent_onaudioprocess.
Qed.

Lemma Consistent_setConnectionState (v : ConnectionState) (w : World) :
  v <> CONNECTING ->
  (v = ERROR -> error (hook w) <> None) ->
  Consistent w -> Consistent (after (setConnectionState v w)).
Proof.
  intros Hv He H. open_world w. use_consistent H.
  unfold setConnectionState; simpl.
  constructor; simpl; auto; intros; congruence.
Qed.

Lemma Consistent_channelCloses (session : nat) (w : World) :
  Consistent w -> Consistent (after (channelCloses session w)).
Proof.
  intro H. unfold channelCloses.
  assert (Consistent
            (after ((Live.modifySession session (Live.setState Closed) ;;
                     onclose) w))) as Hgoal.
  { apply bind_preserves.
    - destruct (modifySession_sessions session (Live.setState Closed) w)
        as (w' & E & S).
      rewrite E. simpl. now apply Consistent_sameButSessions with w.
    - intros _ w' H'. apply Consistent_setConnectionState;
        [discriminate|discriminate|exact H']. }
  destruct (sessionState w session) as [[| | |]|]; auto.
Qed.

Lemma Consistent_onerror (reason : JsValue) (w : World) :
  Consistent w -> Consistent (after (onerror reason w)).
Proof.
  intro H. open_world w. use_consistent H.
  unfold onerror. js_unfold. simpl.
  destruct cs; simpl; constructor; simpl; auto;
    intros; try discriminate; congruence.
Qed.

Lemma Consistent_channelFails (session : nat) (reason : JsValue) (w : World) :
  Consistent w -> Consistent (after (channelFails session reason w)).
Proof.
  intro H. unfold channelFails.
  pose proof (Consistent_onerror reason w H).
  destruct (sessionState w session) as [[| | |]|]; auto.
Qed.

Lemma Consistent_playbackFinishes (source : nat) (w : World) :
  Consistent w -> Consistent (after (playbackFinishes source w)).
Proof.
  intro H. unfold playbackFinishes.
  destruct (nth_error (bufferSources (browser w)) source) as [n|] eqn:Hn;
    [|exact H].
  destruct (Web.started n && negb (src_finished n)); [|exact H].
  clear Hn. open_world w. use_consistent H. js_unfold. simpl.
  constructor; simpl; auto.
  intros source' Hsrc. destruct (Hpend source' Hsrc) as (m & Hm & Hs).
  eapply started_survives_update; eauto.
Qed.

Lemma Consistent_sourceEnds (source : nat) (w : World) :
  Consistent w -> Consistent (after (sourceEnds source w)).
Proof.
  intro H. unfold sourceEnds.
  destruct (nth_error (bufferSources (browser w)) source) as [n|] eqn:Hn;
    [|exact H].
  destruct (src_finished n && negb (src_notified n)); [|exact H].
  clear Hn. open_world w. use_consistent H. unfold onended. js_unfold. simpl.
  constructor; simpl; auto.
  intros source' Hsrc. apply In_delete in Hsrc.
  destruct (Hpend source' Hsrc) as (m & Hm & Hs).
  eapply started_survives_update; eauto.
Qed.

Lemma Consistent_schedulePlayback (ctx : nat) (currentTime : Q)
  (audioBuffer : AudioBuffer) (w : World) :
  Consistent w ->
  Consistent (after (schedulePlayback ctx currentTime audioBuffer w)).
Proof.
  intro H. rewrite schedulePlayback_effect. simpl.
  open_world w. use_consistent H. constructor; simpl; auto.
  intros source Hsrc. apply In_add in Hsrc. destruct Hsrc as [->|Hsrc].
  - rewrite nth_error_last. eexists. split; reflexivity.
  - destruct (Hpend source Hsrc) as (n & Hn & Hs).
    exists n. split; [|exact Hs].
    rewrite nth_error_app1; [exact Hn|].
    apply nth_error_Some. congruence.
Qed.

Lemma Consistent_handleInterruption (w : World) :
  Consistent w -> Consistent (after (handleInterruption w)).
Proof.
  intro H. rewrite handleInterruption_effect. simpl.
  open_world w. use_consistent H. constructor; simpl; auto.
  intros source [].
Qed.

Lemma Consistent_onmessage (currentTime : Q) (message : LiveServerMessage)
  (w : World) :
  Consistent w -> Consistent (after (onmessage currentTime message w)).
Proof.
  intro H. unfold onmessage, bind at 1, read at 1, bind at 1, read at 1.
  apply bind_preserves.
  - destruct (inlineData message) as [[audioBuffer|]|]; try exact H;
      destruct (outputAudioContextRef (hook w)); try exact H;
      destruct (gainNodeRef (hook w)); try exact H.
    now apply Consistent_schedulePlayback.
  - intros _ w' H'. destruct (interrupted message); [|exact H'].
    now apply Consistent_handleInterruption.
Qed.

Lemma Consistent_channelDelivers (session : nat) (currentTime : Q)
  (message : LiveServerMessage) (w : World) :
  Consistent w ->
  Consistent (after (channelDelivers session currentTime message w)).
Proof.
  intro H. unfold channelDelivers.
  pose proof (Consistent_onmessage currentTime message w H).
  destruct (sessionState w session) as [[| | |]|]; auto.
Qed.

Lemma Consistent_onopen (sessionPromise : nat) (w : World) :
  Consistent w -> Consistent (after (onopen sessionPromise w)).
Proof.
  intro H. unfold onopen. apply bind_preserves.
  - apply Consistent_setConnectionState; [discriminate|discriminate|exact H].
  - clear w H. intros _ w H. open_world w. use_consistent H.
    js_unfold. simpl.
    destruct inC; simpl; [|constructor; simpl; auto].
    destruct str; simpl; constructor; simpl; auto.
Qed.

Lemma Consistent_channelOpens (session : nat) (w : World) :
  Consistent w -> Consistent (after (channelOpens session w)).
Proof.
  intro H. unfold channelOpens.
  destruct (sessionState w session) as [[| | |]|]; try exact H.
  apply bind_preserves.
  { destruct (modifySession_sessions session (Live.setState Open) w)
      as (w' & E & S).
    rewrite E. simpl. now apply Consistent_sameButSessions with w. }
  intros _ w1 H1. apply bind_preserves.
  { now apply Consistent_onopen. }
  intros _ w2 H2. apply bind_preserves.
  { destruct (modifySession_sessions session (Live.setThen []) w2)
      as (w' & E & S).
    rewrite E. simpl. now apply Consistent_sameButSessions with w2. }
  intros _ w3 H3.
  destruct (forEach_resume_sessions session (waiting w session) w3)
    as (w' & E & S).
  rewrite E. simpl. now apply Consistent_sameButSessions with w3.
Qed.

Lemma refOpen_fresh_input (heap : list AudioContext) (a b : AudioContext) :
  ctx_closed a = false ->
  refOpen ((heap ++ [a]) ++ [b]) (Some (List.length heap)).
Proof.
  intro Ha. exists a. split; [|exact Ha].
  rewrite <- app_assoc. simpl.
  rewrite nth_error_app2 by apply Nat.le_refl.
  now rewrite Nat.sub_diag.
Qed.

Lemma refOpen_fresh_output (heap : list AudioContext) (a b : AudioContext) :
  ctx_closed b = false ->
  refOpen ((heap ++ [a]) ++ [b]) (Some (List.length (heap ++ [a]))).
Proof.
  intro Hb. exists b. split; [|exact Hb]. apply nth_error_last.
Qed.

Lemma Consistent_connect (env : Environment) (config : VoiceConfig)
  (clonedStyleInstruction : option string) (w : World) :
  Consistent w ->
  Consistent (after (connect env config clonedStyleInstruction w)).
Proof.
  intro H. open_world w. use_consistent H.
  destruct env as [key [|reason]].
  all: unfold connect; js_unfold; simpl.
  all: destruct (truthy key); simpl.
  all: destruct cs; simpl.
  all: constructor; simpl; auto; try (intros; discriminate);
    try (intros; congruence).
  all: try (apply refOpen_fresh_input; reflexivity).
  all: try (apply refOpen_fresh_output; reflexivity).
  all: intros c Hc; injection Hc as <-; rewrite length_app; simpl;
    intro Hc; injection Hc as Hc; lia.
Qed.

(** ** Teardown *)

Lemma disconnect_tears_down (w : World) :
  Consistent w ->
  exists w1,
    disconnect w = Returned tt w1 /\
    TornDown w1 /\
    error (hook w1) = error (hook w).
Proof.
  intro H. open_world w. use_consistent H.
  assert (forall c, inC = Some c -> outC = Some c -> False) as Hne
    by (intros c Hc1 Hc2; exact (Hapart c Hc1 Hc2)).
  clear Hapart Hpend Hconn Herr.
  destruct inC as [ci|]; [destruct Hin as (xi & Hxi & Hci)|];
    (destruct outC as [co|]; [destruct Hout as (xo & Hxo & Hco)|]).
  all: try (assert (ci <> co) as Hneq by (intros ->; eapply Hne; eauto)).
  all: destruct str, proc, mic.
  all: unfold disconnect; js_unfold; simpl.
  all: repeat (first [ rewrite Hxi | rewrite Hci | rewrite Hxo | rewrite Hco
                     | rewrite nth_error_update_neq by assumption ]; simpl).
  all: destruct sess as [s|]; simpl.
  all: try (destruct (nth_error sesss s) as [l|] eqn:Hs; simpl;
            [destruct (chan_state l) eqn:Hl; simpl|]).
  all: try rewrite Hs; simpl; try rewrite Hl; simpl.
  all: destruct cs; simpl.
  all: eexists; (split; [reflexivity|]); (split; [|reflexivity]).
  all: constructor; simpl; try reflexivity; try discriminate.
  all: intros s' Hs'; injection Hs' as <-; unfold sessionState; simpl.
  all: rewrite ?nth_error_update_eq, ?Hs; simpl; rewrite ?Hl; discriminate.
Qed.

Lemma TornDown_Consistent (w : World) : TornDown w -> Consistent w.
Proof.
  intros [H1 H2 H3 H4 H5 H6 H7 H8 H9 H10].
  constructor; rewrite ?H4, ?H5, ?H6, ?H8; simpl; auto; try discriminate.
  intros source [].
Qed.

Lemma Consistent_disconnect (w : World) :
  Consistent w -> Consistent (after (disconnect w)).
Proof.
  intro H. destruct (disconnect_tears_down w H) as (w1 & E & T & _).
  rewrite E. simpl. now apply TornDown_Consistent.
Qed.

Lemma Consistent_initialWorld : Consistent initialWorld.
Proof.
  constructor; simpl; auto; try discriminate. intros source [].
Qed.

Lemma Consistent_step (w : World) (e : Event) :
  Consistent w -> Consistent (step w e).
Proof.
  intro H. unfold step. destruct e; simpl.
  - now apply Consistent_connect.
  - now apply Consistent_disconnect.
  - now apply Consistent_updateVoiceParams.
  - now apply Consistent_channelOpens.
  - now apply Consistent_channelDelivers.
  - now apply Consistent_channelCloses.
  - now apply Consistent_channelFails.
  - now apply Consistent_playbackFinishes.
  - now apply Consistent_sourceEnds.
  - now apply Consistent_deviceDelivers.
Qed.

Lemma Consistent_run (history : list Event) :
  forall w, Consistent w -> Consistent (run history w).
Proof.
  induction history as [|e history IH]; intros w H; simpl.
  - exact H.
  - apply IH. now apply Consistent_step.
Qed.

Lemma Consistent_reachable (history : list Event) :
  Consistent (run history initialWorld).
Proof. apply Consistent_run, Consistent_initialWorld. Qed.

Lemma map_update_invisible {A B : Type} (g : A -> B) (f : A -> A) (i : nat)
  (l : list A) :
  (forall x, g (f x) = g x) -> map g (update i f l) = map g l.
Proof.
  intro H. revert i. induction l as [|x l IH]; intros [|i]; simpl;
    rewrite ?H, ?IH; reflexivity.
Qed.

Lemma disconnect_when_torn_down (w : World) :
  TornDown w ->
  exists w',
    disconnect w = Returned tt w' /\ observable w' = observable w.
Proof.
  intros [H1 H2 H3 H4 H5 H6 H7 H8 H9 H10].
  open_world w. simpl in *. subst.
  unfold sessionState in H10; simpl in H10.
  unfold disconnect; js_unfold; simpl.
  destruct sess as [s|]; simpl.
  - specialize (H10 s eq_refl).
    destruct (nth_error sesss s) as [l|] eqn:Hs; simpl.
    + destruct (chan_state l) eqn:Hl; simpl; try rewrite Hs; simpl;
        try rewrite Hl; simpl.
      * eexists. split; [reflexivity|]. unfold observable; simpl.
        rewrite map_update_invisible; reflexivity.
      * exfalso. apply H10. simpl. now rewrite Hl.
      * eexists. split; reflexivity.
      * eexists. split; reflexivity.
    + eexists. split; reflexivity.
  - eexists. split; reflexivity.
Qed.


(** C9. The interruption handler returns in every world, reachable or
    not: with an empty pending set it leaves the sources alone, a source
    whose playback is over is left exactly as it was, [stop] on such a
    source changes nothing, and a [stop] that throws (on a source never
    started) does not get out of the handler. A message that only signals
    an interruption is handled without an exception. *)
Theorem interruption_handler_total :
  forall w : World,
    returned (handleInterruption w) = true /\
    (scheduledSourcesRef (hook w) = JsSet.empty ->
     bufferSources (browser (after (handleInterruption w))) =
     bufferSources (browser w)) /\
    (forall source n,
       nth_error (bufferSources (browser w)) source = Some n ->
       src_finished n = true ->
       nth_error (bufferSources (browser (after (handleInterruption w))))
         source = Some n) /\
    (forall source n,
       nth_error (bufferSources (browser w)) source = Some n ->
       Web.started n = true ->
       src_finished n = true ->
       Web.stop source w = Returned tt w) /\
    (forall source,
       returned (tryCatch (Web.stop source) (fun _ => ret tt) w) = true) /\
    (forall currentTime,
       returned
         (onmessage currentTime {| inlineData := None; interrupted := true |}
            w) = true).
Proof.
  intro w. rewrite handleInterruption_effect. simpl.
  split; [reflexivity|]. split.
  { intros ->. destruct w as [h b l]; destruct b; reflexivity. }
  split.
  { intros source n Hn Hf.
    destruct (forceStop_all_node (scheduledSourcesRef (hook w)) _ _ _ Hn)
      as (n' & Hn' & _ & _ & Hfin & _).
    rewrite <- (Hfin Hf).
    destruct w as [h b l]; destruct b; exact Hn'. }
  split.
  { intros source n Hn Hs Hf.
    destruct w as [h b l]; destruct b; simpl in *.
    unfold Web.stop, Web.modifySource, bind, look, mutate; simpl.
    rewrite Hn, Hs; simpl.
    rewrite (update_fixed source Web.halt _ n Hn (halt_finished n Hf)).
    reflexivity. }
  split.
  { intro source. now rewrite forceStop_effect. }
  intro currentTime. unfold onmessage, bind, read; simpl.
  now rewrite handleInterruption_effect.
Qed.

(** ** Failure of [connect] *)

(** C3, as stated, fails: when the microphone is refused, [connect] ends in
    [ERROR] and the two audio contexts it has created stay open. *)
Lemma connect_refused_keeps_contexts_open :
  let w := after (connect refusing INITIAL_CONFIG None initialWorld) in
  connectionState (hook w) = ERROR /\
  error (hook w) = Some "Permission denied"%string /\
  inputAudioContextRef (hook w) = Some 0%nat /\
  outputAudioContextRef (hook w) = Some 1%nat /\
  map ctx_closed (contexts (browser w)) = [false; false] /\
  openHandles initialWorld = 0%nat /\
  openHandles w = 2%nat.
Proof. vm_compute. repeat split; reflexivity. Qed.

(** C3, amended. [connect] never throws. When the key is missing it goes
    through [CONNECTING] to [ERROR] with the message "API Key not found in
    environment." and touches no browser object, so it opens no handle.
    When the microphone is refused it goes through [CONNECTING] to [ERROR]
    with the message of the rejection (or "Failed to connect" when the
    rejection is no [Error]). A channel that fails to open is reported
    later, through [onerror], which sets [ERROR] and the error's text. *)
Theorem connect_failure_reports_error :
  forall (env : Environment) (config : VoiceConfig)
         (clonedStyleInstruction : option string) (w : World),
    let w' := after (connect env config clonedStyleInstruction w) in
    returned (connect env config clonedStyleInstruction w) = true /\
    (truthy (API_KEY env) = false ->
     connectionState (hook w') = ERROR /\
     stateLog w' = ERROR :: CONNECTING :: stateLog w /\
     error (hook w') = Some "API Key not found in environment."%string /\
     browser w' = browser w /\
     openHandles w' = openHandles w) /\
    (forall reason,
       truthy (API_KEY env) = true ->
       microphone env = Web.Rejected reason ->
       connectionState (hook w') = ERROR /\
       stateLog w' = ERROR :: CONNECTING :: stateLog w /\
       error (hook w') = Some (thrownText reason)) /\
    (forall session reason,
       sessionState w session = Some Pending ->
       let w'' := after (channelFails session reason w) in
       connectionState (hook w'') = ERROR /\
       error (hook w'') = Some (reportedText reason)).
Proof.
  intros env config clonedStyleInstruction w w'. subst w'.
  destruct env as [key mike]. open_world w.
  split; [|split; [|split]].
  - unfold connect; js_unfold; simpl.
    destruct (truthy key); simpl; [destruct mike|]; reflexivity.
  - simpl. intros Hkey. unfold connect; js_unfold; simpl.
    rewrite Hkey; simpl. repeat split; reflexivity.
  - simpl. intros reason Hkey ->. unfold connect; js_unfold; simpl.
    rewrite Hkey; simpl. destruct reason; repeat split; reflexivity.
  - intros session reason Hs. unfold channelFails. rewrite Hs.
    unfold onerror; js_unfold; simpl. destruct reason; split; reflexivity.
Qed.

Lemma connect_failure_reports_error_witness :
  let w' := after (connect keyless INITIAL_CONFIG None initialWorld) in
  truthy (API_KEY keyless) = false /\
  connectionState (hook w') = ERROR /\
  stateLog w' = [ERROR; CONNECTING] /\
  error (hook w') = Some "API Key not found in environment."%string /\
  openHandles w' = 0%nat.
Proof.
  intro w'. split; [reflexivity|].
  destruct (connect_failure_reports_error keyless INITIAL_CONFIG None
              initialWorld) as (_ & H & _).
  destruct (H eq_refl) as (H1 & H2 & H3 & _ & H5).
  repeat split; assumption.
Defined.

(** ** Stale sessions *)

(** C5, as stated, fails: after a disconnect and a second connect, the
    close of the first channel arrives while the second session is open
    and [sessionRef] names it; [onclose] of the stale session sets
    [DISCONNECTED]. *)
Lemma stale_onclose_disconnects_new_session :
  let before :=
    run [Connect friendly INITIAL_CONFIG None; Opened 0; Disconnect;
         Connect friendly INITIAL_CONFIG None; Opened 1] initialWorld in
  let afterwards := step before (ChannelClosed 0) in
  sessionRef (hook before) = Some 1%nat /\
  sessionState before 0 = Some Closing /\
  sessionState before 1 = Some Open /\
  connectionState (hook before) = CONNECTED /\
  sessionRef (hook afterwards) = Some 1%nat /\
  sessionState afterwards 1 = Some Open /\
  connectionState (hook afterwards) = DISCONNECTED.
Proof. vm_compute. repeat split; reflexivity. Qed.

(** C5, amended. [sessionRef] names one session at most: a [connect] that
    succeeds makes it name the session it has just created and leaves the
    older ones as they are. The callbacks do not look at which session
    they belong to: for every session whose channel is open, named by
    [sessionRef] or not, its [onclose] sets [DISCONNECTED], its [onerror]
    sets [ERROR] and the error text, and its [onmessage] acts on the shared
    scheduler exactly as [onmessage] of any other session would. *)
Theorem callbacks_ignore_session_identity :
  forall (w : World) (session : nat),
    sessionState w session = Some Open ->
    connectionState (hook (after (channelCloses session w))) = DISCONNECTED /\
    (forall reason,
       connectionState (hook (after (channelFails session reason w))) = ERROR
       /\ error (hook (after (channelFails session reason w))) =
          Some (reportedText reason)) /\
    (forall currentTime message,
       channelDelivers session currentTime message w =
       onmessage currentTime message w) /\
    (forall env config clonedStyleInstruction,
       truthy (API_KEY env) = true ->
       microphone env = Web.Granted ->
       let w' := after (connect env config clonedStyleInstruction w) in
       sessionRef (hook w') = Some (List.length (sessions (browser w))) /\
       exists fresh,
         sessions (browser w') = sessions (browser w) ++ [fresh] /\
         chan_state fresh = Pending).
Proof.
  intros w session Hs.
  split; [|split; [|split]].
  - unfold channelCloses. rewrite Hs. open_world w.
    unfold onclose; js_unfold; reflexivity.
  - intro reason. unfold channelFails. rewrite Hs. open_world w.
    unfold onerror; js_unfold; simpl. destruct reason; split; reflexivity.
  - intros currentTime message. unfold channelDelivers. now rewrite Hs.
  - intros [key mike] config clonedStyleInstruction Hkey Hmike.
    simpl in Hkey, Hmike. subst mike. clear Hs. open_world w.
    unfold connect; js_unfold; simpl. rewrite Hkey; simpl.
    split; [reflexivity|]. eexists. split; reflexivity.
Qed.

Lemma callbacks_ignore_session_identity_witness :
  let w :=
    run [Connect friendly INITIAL_CONFIG None; Opened 0;
         ChannelError 0 (JsOther "network"); 
         Connect friendly INITIAL_CONFIG None; Opened 1] initialWorld in
  sessionState w 0 = Some Open /\
  sessionRef (hook w) = Some 1%nat /\
  connectionState (hook w) = CONNECTED /\
  connectionState (hook (after (channelCloses 0 w))) = DISCONNECTED.
Proof.
  intro w. split; [reflexivity|]. split; [reflexivity|].
  split; [reflexivity|].
  exact (proj1 (callbacks_ignore_session_identity w 0 eq_refl)).
Defined.

(** ** The error message *)

(** C8, as stated, fails: [disconnect] called in [ERROR] leaves
    [DISCONNECTED] with the error message still in place. *)
Lemma disconnect_keeps_error_message :
  let w :=
    run [Connect friendly INITIAL_CONFIG None; Opened 0;
         ChannelError 0 (JsError "socket failure"); Disconnect]
      initialWorld in
  connectionState (hook w) = DISCONNECTED /\
  error (hook w) = Some "socket failure"%string.
Proof. vm_compute. split; reflexivity. Qed.

Lemma connect_enters_connecting_or_error (env : Environment)
  (config : VoiceConfig) (clonedStyleInstruction : option string)
  (w : World) :
  let w' := after (connect env config clonedStyleInstruction w) in
  connectionState (hook w') = CONNECTING \/ connectionState (hook w') = ERROR.
Proof.
  destruct env as [key mike]. open_world w.
  unfold connect; js_unfold; simpl.
  destruct (truthy key); simpl; [destruct mike|]; simpl; auto.
Qed.

(** C8, amended. In every world the hook can reach the error is absent in
    [CONNECTING] and present in [ERROR]; [connect] leaves either
    [CONNECTING] without an error or [ERROR] with one. [disconnect] and
    [onclose] do not touch the error, so [DISCONNECTED] (and, through
    [onopen], [CONNECTED]) can show the message of an earlier failure
    until the next [connect]. *)
Theorem error_absent_connecting_present_in_error :
  forall history : list Event,
    let w := run history initialWorld in
    (connectionState (hook w) = CONNECTING -> error (hook w) = None) /\
    (connectionState (hook w) = ERROR -> error (hook w) <> None) /\
    (forall env config clonedStyleInstruction,
       let w' := after (connect env config clonedStyleInstruction w) in
       (connectionState (hook w') = CONNECTING /\ error (hook w') = None) \/
       (connectionState (hook w') = ERROR /\ error (hook w') <> None)) /\
    error (hook (after (disconnect w))) = error (hook w) /\
    error (hook (after (onclose w))) = error (hook w) /\
    (forall session,
       error (hook (after (onopen session w))) = error (hook w)).
Proof.
  intros history w.
  pose proof (Consistent_reachable history) as H. fold w in H.
  split; [apply (connecting_clean _ H)|].
  split; [apply (error_reported _ H)|].
  split.
  { intros env config clonedStyleInstruction w'.
    pose proof (Consistent_connect env config clonedStyleInstruction w H)
      as H'.
    fold w' in H'.
    destruct (connect_enters_connecting_or_error env config
                clonedStyleInstruction w) as [E|E]; fold w' in E.
    - left. split; [exact E|]. now apply (connecting_clean _ H').
    - right. split; [exact E|]. now apply (error_reported _ H'). }
  split.
  { destruct (disconnect_tears_down w H) as (w1 & E & _ & Herr).
    rewrite E. exact Herr. }
  split.
  { generalize w. intro v. open_world v. reflexivity. }
  intro session. generalize w. intro v. open_world v.
  unfold onopen; js_unfold; simpl.
  destruct inC; simpl; [|reflexivity]. destruct str; reflexivity.
Qed.

(** ** The scenarios of the specification, run on the model *)

(** A chunk of 0.5 s at device time 0, then one of 0.3 s that arrives when
    the clock shows 0.6: starts 0 and 0.6, cursor 0.9. *)
Example scenario_late_chunk :
  let w :=
    run [Connect friendly INITIAL_CONFIG None; Opened 0;
         Message 0 0 (audioMessage 5); Message 0 (6 # 10) (audioMessage 3)]
      initialWorld in
  connectionState (hook w) = CONNECTED /\
  map src_startedAt (bufferSources (browser w)) = [Some 0; Some (6 # 10)] /\
  (nextStartTimeRef (hook w) == 9 # 10)%Q /\
  scheduledSourcesRef (hook w) = [0; 1]%nat.
Proof. vm_compute. repeat split; reflexivity. Qed.

(** Two chunks, then an interruption before either is through: both are
    stopped, the set is empty, the cursor is 0, and a later chunk starts at
    the device time of its arrival, not at the old 0.8. *)
Example scenario_interruption :
  let w :=
    run [Connect friendly INITIAL_CONFIG None; Opened 0;
         Message 0 0 (audioMessage 5); Message 0 (1 # 10) (audioMessage 3);
         Message 0 (2 # 10) interruptionMessage] initialWorld in
  let w' := step w (Message 0 (3 # 10) (audioMessage 3)) in
  map src_stopped (bufferSources (browser w)) = [true; true] /\
  scheduledSourcesRef (hook w) = JsSet.empty /\
  nextStartTimeRef (hook w) = 0 /\
  map src_startedAt (bufferSources (browser w')) =
    [Some 0; Some (5 # 10); Some (3 # 10)] /\
  scheduledSourcesRef (hook w') = [2%nat].
Proof. vm_compute. repeat split; reflexivity. Qed.

(** An interruption that finds a source whose playback is over, its
    [ended] event not yet dispatched, leaves that source as it is. *)
Example scenario_interruption_after_playback :
  let w :=
    run [Connect friendly INITIAL_CONFIG None; Opened 0;
         Message 0 0 (audioMessage 5); Finished 0] initialWorld in
  let w' := step w (Message 0 (7 # 10) interruptionMessage) in
  scheduledSourcesRef (hook w) = [0%nat] /\
  returned (handleInterruption w) = true /\
  bufferSources (browser w') = bufferSources (browser w) /\
  scheduledSourcesRef (hook w') = JsSet.empty.
Proof. vm_compute. repeat split; reflexivity. Qed.

(** [disconnect] while the channel is still opening, then again: no device
    handle stays open, and the channel is closed as soon as it opens. *)
Example scenario_disconnect_while_connecting :
  let w :=
    run [Connect friendly INITIAL_CONFIG None; Disconnect; Disconnect]
      initialWorld in
  connectionState (hook w) = DISCONNECTED /\
  openHandles w = 0%nat /\
  sessionState w 0 = Some Pending /\
  sessionState (step w (Opened 0)) 0 = Some Closing.
Proof. vm_compute. repeat split; reflexivity. Qed.

(** * Further properties of the code *)

(** ** The scheduler over a whole history *)

Lemma schedulerView_sameButSessions (w w' : World) :
  sameButSessions w w' -> schedulerView w' = schedulerView w.
Proof.
  intros (Hh & _ & _ & _ & _ & _ & Hs). unfold schedulerView.
  now rewrite Hh, Hs.
Qed.

Lemma Orderly_view (w w' : World) :
  schedulerView w' = schedulerView w -> Orderly w -> Orderly w'.
Proof.
  unfold schedulerView. intros E [H1 H2 H3 H4].
  injection E as E1 E2 E3.
  constructor; rewrite ?E1, ?E2, ?E3; assumption.
Qed.

Lemma schedulerView_connect (env : Environment) (config : VoiceConfig)
  (clonedStyleInstruction : option string) (w : World) :
  schedulerView (after (connect env config clonedStyleInstruction w)) =
  schedulerView w.
Proof.
  destruct env as [key mike]. open_world w.
  unfold connect; js_unfold; simpl.
  destruct (truthy key); simpl; [destruct mike|]; reflexivity.
Qed.

Lemma schedulerView_updateVoiceParams (newConfig : VoiceConfig)
  (newClonedStyle : option string) (w : World) :
  schedulerView (after (updateVoiceParams newConfig newClonedStyle w)) =
  schedulerView w.
Proof.
  destruct (updateVoiceParams_sessions newConfig newClonedStyle w)
    as (w' & E & S).
  rewrite E. now apply schedulerView_sameButSessions.
Qed.

Lemma schedulerView_onopen (sessionPromise : nat) (w : World) :
  schedulerView (after (onopen sessionPromise w)) = schedulerView w.
Proof.
  open_world w. unfold onopen; js_unfold; simpl.
  destruct inC; simpl; [|reflexivity]. destruct str; reflexivity.
Qed.

Lemma schedulerView_channelOpens (session : nat) (w : World) :
  schedulerView (after (channelOpens session w)) = schedulerView w.
Proof.
  unfold channelOpens.
  destruct (sessionState w session) as [[| | |]|]; try reflexivity.
  apply (bind_preserves (fun v => schedulerView v = schedulerView w)).
  { destruct (modifySession_sessions session (Live.setState Open) w)
      as (w' & E & S).
    rewrite E. now apply schedulerView_sameButSessions. }
  intros _ w1 H1.
  apply (bind_preserves (fun v => schedulerView v = schedulerView w)).
  { now rewrite schedulerView_onopen. }
  intros _ w2 H2.
  apply (bind_preserves (fun v => schedulerView v = schedulerView w)).
  { destruct (modifySession_sessions session (Live.setThen []) w2)
      as (w' & E & S).
    rewrite E. simpl. rewrite <- H2. now apply schedulerView_sameButSessions. }
  intros _ w3 H3.
  destruct (forEach_resume_sessions session (waiting w session) w3)
    as (w' & E & S).
  rewrite E. simpl. rewrite <- H3. now apply schedulerView_sameButSessions.
Qed.

Lemma schedulerView_channelCloses (session : nat) (w : World) :
  schedulerView (after (channelCloses session w)) = schedulerView w.
Proof.
  unfold channelCloses.
  assert (schedulerView
            (after ((Live.modifySession session (Live.setState Closed) ;;
                     onclose) w)) = schedulerView w) as H.
  { open_world w. unfold onclose; js_unfold; reflexivity. }
  destruct (sessionState w session) as [[| | |]|]; auto.
Qed.

Lemma schedulerView_channelFails (session : nat) (reason : JsValue)
  (w : World) :
  schedulerView (after (channelFails session reason w)) = schedulerView w.
Proof.
  unfold channelFails.
  assert (schedulerView (after (onerror reason w)) = schedulerView w) as H.
  { open_world w. unfold onerror; js_unfold; reflexivity. }
  destruct (sessionState w session) as [[| | |]|]; auto.
Qed.

Lemma schedulerView_deviceDelivers (processor : nat) (pcmBlob : PcmBlob)
  (rms : Q) (w : World) :
  schedulerView (after (deviceDelivers processor pcmBlob rms w)) =
  schedulerView w.
Proof.
  unfold deviceDelivers.
  destruct (nth_error (processors (browser w)) processor) as [p|];
    [|reflexivity].
  destruct (proc_onaudioprocess p) as [s|]; [|reflexivity].
  destruct (proc_connected p); [|reflexivity].
  unfold onaudioprocess.
  apply (bind_preserves (fun v => schedulerView v = schedulerView w)).
  - open_world w. reflexivity.
  - intros _ w1 H1.
    destruct (andThen_sessions s (ThenSend (Media pcmBlob)) w1)
      as (w' & E & S).
    rewrite E. simpl. rewrite <- H1. now apply schedulerView_sameButSessions.
Qed.

Lemma disconnect_effect (w : World) :
  Consistent w ->
  exists w1,
    disconnect w = Returned tt w1 /\
    contexts (browser w1) =
      closeAt (outputAudioContextRef (hook w))
        (closeAt (inputAudioContextRef (hook w)) (contexts (browser w))) /\
    streams (browser w1) = stopAt (streamRef (hook w)) (streams (browser w)) /\
    processors (browser w1) =
      match processorRef (hook w) with
      | Some p => update p unwireProcessor (processors (browser w))
      | None => processors (browser w)
      end /\
    micSources (browser w1) =
      match inputSourceRef (hook w) with
      | Some m => update m unwireMic (micSources (browser w))
      | None => micSources (browser w)
      end /\
    bufferSources (browser w1) = bufferSources (browser w) /\
    sessionRef (hook w1) = sessionRef (hook w) /\
    analyserRef (hook w1) = analyserRef (hook w) /\
    gainNodeRef (hook w1) = gainNodeRef (hook w) /\
    sessions (browser w1) =
      requestClose (sessionRef (hook w)) (sessions (browser w)).
Proof.
  intro H. open_world w. use_consistent H.
  assert (forall c, inC = Some c -> outC = Some c -> False) as Hne
    by (intros c Hc1 Hc2; exact (Hapart c Hc1 Hc2)).
  clear Hapart Hpend Hconn Herr.
  destruct inC as [ci|]; [destruct Hin as (xi & Hxi & Hci)|];
    (destruct outC as [co|]; [destruct Hout as (xo & Hxo & Hco)|]).
  all: try (assert (ci <> co) as Hneq by (intros ->; eapply Hne; eauto)).
  all: destruct str, proc, mic.
  all: unfold disconnect; js_unfold; simpl.
  all: repeat (first [ rewrite Hxi | rewrite Hci | rewrite Hxo | rewrite Hco
                     | rewrite nth_error_update_neq by assumption ]; simpl).
  all: destruct sess as [s|]; simpl.
  all: try (destruct (nth_error sesss s) as [l|] eqn:Hs; simpl;
            [destruct (chan_state l) eqn:Hl; simpl|]).
  all: try rewrite Hs; simpl; try rewrite Hl; simpl.
  all: eexists; (split; [reflexivity|]); simpl.
  all: unfold requestClose; rewrite ?Hs; simpl; rewrite ?Hl.
  all: repeat split; reflexivity.
Qed.

Lemma nth_error_update_inv {A : Type} (i j : nat) (f : A -> A) (l : list A)
  (y : A) :
  nth_error (update i f l) j = Some y ->
  exists x, nth_error l j = Some x /\ (y = x \/ (i = j /\ y = f x)).
Proof.
  destruct (Nat.eq_dec i j) as [->|Hneq].
  - rewrite nth_error_update_eq.
    destruct (nth_error l j) as [x|]; simpl; [|discriminate].
    intro H. injection H as <-. eauto.
  - rewrite nth_error_update_neq by assumption. eauto.
Qed.

Lemma has_In (x : nat) (s : JsSet.t) : JsSet.has x s = true <-> In x s.
Proof.
  unfold JsSet.has. rewrite existsb_exists. split.
  - intros (y & Hy & E). apply Nat.eqb_eq in E. now subst.
  - intro H. exists x. split; [exact H|apply Nat.eqb_refl].
Qed.

Lemma NoDup_add (x : nat) (s : JsSet.t) : NoDup s -> NoDup (JsSet.add x s).
Proof.
  intro H. unfold JsSet.add. destruct (JsSet.has x s) eqn:E; [exact H|].
  assert (~ In x s) as Hx.
  { intro Hin. apply has_In in Hin. congruence. }
  clear E. induction s as [|y s IH]; simpl.
  - constructor; [intros []|constructor].
  - inversion H as [|y' s' Hy Hs]; subst. constructor.
    + intro Hin. apply in_app_or in Hin. simpl in Hin.
      destruct Hin as [Hin|[->|[]]]; [now apply Hy|].
      apply Hx. now left.
    + apply IH; [exact Hs|]. intro Hin. apply Hx. now right.
Qed.

Lemma In_delete_neq (x y : nat) (s : JsSet.t) :
  In x (JsSet.delete y s) -> x <> y.
Proof.
  unfold JsSet.delete. intro H. apply filter_In in H. destruct H as [_ H].
  intros ->. now rewrite Nat.eqb_refl in H.
Qed.

Lemma NoDup_delete (y : nat) (s : JsSet.t) :
  NoDup s -> NoDup (JsSet.delete y s).
Proof. apply NoDup_filter. Qed.

Lemma halt_fields (n : AudioBufferSourceNode) :
  src_connected (Web.halt n) = src_connected n /\
  src_startedAt (Web.halt n) = src_startedAt n /\
  src_buffer (Web.halt n) = src_buffer n /\
  src_notified (Web.halt n) = src_notified n /\
  src_finished (Web.halt n) = src_finished n.
Proof. unfold Web.halt. destruct (src_finished n) eqn:E; simpl; auto. Qed.

Lemma forceStop_shape (ns : list AudioBufferSourceNode) (source i : nat)
  (y : AudioBufferSourceNode) :
  nth_error (forceStop ns source) i = Some y ->
  exists n, nth_error ns i = Some n /\ (y = n \/ y = Web.halt n).
Proof.
  unfold forceStop.
  destruct (nth_error ns source) as [m|]; [|eauto].
  destruct (Web.started m); [|eauto].
  intro H. apply nth_error_update_inv in H.
  destruct H as (x & Hx & [->|[_ ->]]); eauto.
Qed.

Lemma halt_halt (n : AudioBufferSourceNode) :
  Web.halt (Web.halt n) = Web.halt n.
Proof. unfold Web.halt. destruct (src_finished n) eqn:E; simpl; now rewrite ?E. Qed.

Lemma forceStop_all_shape (pending : list nat) :
  forall (ns : list AudioBufferSourceNode) (i : nat)
         (y : AudioBufferSourceNode),
    nth_error (fold_left forceStop pending ns) i = Some y ->
    exists n, nth_error ns i = Some n /\ (y = n \/ y = Web.halt n).
Proof.
  induction pending as [|source pending IH]; intros ns i y H; simpl in H.
  - eauto.
  - destruct (IH _ _ _ H) as (m & Hm & Hy).
    destruct (forceStop_shape _ _ _ _ Hm) as (n & Hn & Hmn).
    exists n. split; [exact Hn|].
    destruct Hy as [->| ->]; destruct Hmn as [->| ->]; auto.
    right. apply halt_halt.
Qed.

Lemma Orderly_schedulePlayback (ctx : nat) (currentTime : Q)
  (audioBuffer : AudioBuffer) (w : World) :
  Orderly w ->
  Orderly (after (schedulePlayback ctx currentTime audioBuffer w)).
Proof.
  intros [H1 H2 H3 H4]. rewrite schedulePlayback_effect. simpl.
  open_world w. simpl in *.
  pose proof (Math_max_ge_l next currentTime) as Hmax.
  pose proof (duration_nonneg audioBuffer) as Hd.
  constructor; simpl.
  - lra.
  - intros i n Hn.
    destruct (Nat.lt_ge_cases i (List.length srcs)) as [Hlt|Hge].
    + rewrite nth_error_app1 in Hn by assumption. now apply (H2 i).
    + rewrite nth_error_app2 in Hn by assumption.
      destruct (i - List.length srcs)%nat as [|k]; simpl in Hn.
      * injection Hn as <-. simpl. split; [reflexivity|].
        eexists _, _. split; [reflexivity|]. split; [reflexivity|]. lra.
      * destruct k; discriminate.
  - intros source Hsrc. apply In_add in Hsrc. destruct Hsrc as [->|Hsrc].
    + rewrite nth_error_last. eexists. split; reflexivity.
    + destruct (H3 source Hsrc) as (n & Hn & Hs).
      exists n. split; [|exact Hs].
      rewrite nth_error_app1; [exact Hn|].
      apply nth_error_Some. congruence.
  - now apply NoDup_add.
Qed.

Lemma Orderly_handleInterruption (w : World) :
  Orderly w -> Orderly (after (handleInterruption w)).
Proof.
  intros [H1 H2 H3 H4]. rewrite handleInterruption_effect. simpl.
  open_world w. simpl in *. constructor; simpl.
  - lra.
  - intros i y Hy.
    destruct (forceStop_all_shape _ _ _ _ Hy) as (n & Hn & Hshape).
    destruct (halt_fields n) as (F1 & F2 & F3 & _).
    destruct Hshape as [->| ->]; rewrite ?F1, ?F2, ?F3; now apply (H2 i).
  - intros source [].
  - constructor.
Qed.

Lemma Orderly_onmessage (currentTime : Q) (message : LiveServerMessage)
  (w : World) :
  Orderly w -> Orderly (after (onmessage currentTime message w)).
Proof.
  intro H. unfold onmessage, bind at 1, read at 1, bind at 1, read at 1.
  apply bind_preserves.
  - destruct (inlineData message) as [[audioBuffer|]|]; try exact H;
      destruct (outputAudioContextRef (hook w)); try exact H;
      destruct (gainNodeRef (hook w)); try exact H.
    now apply Orderly_schedulePlayback.
  - intros _ w' H'. destruct (interrupted message); [|exact H'].
    now apply Orderly_handleInterruption.
Qed.

Lemma Orderly_playbackFinishes (source : nat) (w : World) :
  Orderly w -> Orderly (after (playbackFinishes source w)).
Proof.
  intro H. unfold playbackFinishes.
  destruct (nth_error (bufferSources (browser w)) source) as [n|] eqn:Hn;
    [|exact H].
  destruct (Web.started n && negb (src_finished n)); [|exact H].
  clear Hn. destruct H as [H1 H2 H3 H4]. open_world w. simpl in *.
  js_unfold. simpl. constructor; simpl; auto.
  - intros i y Hy. apply nth_error_update_inv in Hy.
    destruct Hy as (x & Hx & [->|[_ ->]]); simpl; now apply (H2 i).
  - intros source' Hsrc. destruct (H3 source' Hsrc) as (m & Hm & Hs).
    destruct (Nat.eq_dec source source') as [->|Hneq].
    + rewrite nth_error_update_eq, Hm. simpl. eexists. split; [reflexivity|].
      exact Hs.
    + rewrite nth_error_update_neq by assumption. eauto.
Qed.

Lemma Orderly_sourceEnds (source : nat) (w : World) :
  Orderly w -> Orderly (after (sourceEnds source w)).
Proof.
  intro H. unfold sourceEnds.
  destruct (nth_error (bufferSources (browser w)) source) as [n|] eqn:Hn;
    [|exact H].
  destruct (src_finished n && negb (src_notified n)); [|exact H].
  clear Hn. destruct H as [H1 H2 H3 H4]. open_world w. simpl in *.
  unfold onended. js_unfold. simpl. constructor; simpl; auto.
  - intros i y Hy. apply nth_error_update_inv in Hy.
    destruct Hy as (x & Hx & [->|[_ ->]]); simpl; now apply (H2 i).
  - intros source' Hsrc.
    pose proof (In_delete_neq _ _ _ Hsrc) as Hneq. apply In_delete in Hsrc.
    destruct (H3 source' Hsrc) as (m & Hm & Hs).
    rewrite nth_error_update_neq by congruence. eauto.
  - now apply NoDup_delete.
Qed.

Lemma Orderly_disconnect (w : World) :
  Consistent w -> Orderly w -> Orderly (after (disconnect w)).
Proof.
  intros HC [H1 H2 H3 H4].
  destruct (disconnect_tears_down w HC) as (w1 & E & T & _).
  destruct (disconnect_effect w HC) as (w1' & E' & _ & _ & _ & _ & Hs & _).
  rewrite E in E'. injection E' as <-. rewrite E. simpl.
  constructor.
  - rewrite (td_next _ T). lra.
  - rewrite Hs. exact H2.
  - rewrite (td_pending _ T). intros source [].
  - rewrite (td_pending _ T). constructor.
Qed.

Lemma Orderly_step (w : World) (e : Event) :
  Consistent w -> Orderly w -> Orderly (step w e).
Proof.
  intros HC H. unfold step. destruct e; simpl.
  - eapply Orderly_view; [apply schedulerView_connect|exact H].
  - now apply Orderly_disconnect.
  - eapply Orderly_view; [apply schedulerView_updateVoiceParams|exact H].
  - eapply Orderly_view; [apply schedulerView_channelOpens|exact H].
  - unfold channelDelivers.
    pose proof (Orderly_onmessage currentTime message w H).
    destruct (sessionState w session) as [[| | |]|]; auto.
  - eapply Orderly_view; [apply schedulerView_channelCloses|exact H].
  - eapply Orderly_view; [apply schedulerView_channelFails|exact H].
  - now apply Orderly_playbackFinishes.
  - now apply Orderly_sourceEnds.
  - eapply Orderly_view; [apply schedulerView_deviceDelivers|exact H].
Qed.

Lemma Orderly_initialWorld : Orderly initialWorld.
Proof.
  constructor; simpl.
  - lra.
  - intros [|i] n H; discriminate.
  - intros source [].
  - constructor.
Qed.

Lemma Orderly_run (history : list Event) :
  forall w, Consistent w -> Orderly w -> Orderly (run history w).
Proof.
  induction history as [|e history IH]; intros w HC H; simpl.
  - exact H.
  - apply IH; [now apply Consistent_step|now apply Orderly_step].
Qed.

Lemma Orderly_reachable (history : list Event) :
  Orderly (run history initialWorld).
Proof.
  apply Orderly_run; [apply Consistent_initialWorld|apply Orderly_initialWorld].
Qed.

(** X1. In every world the hook can reach the cursor is not negative;
    every source node ever created has its buffer, is connected and was
    started at a time that is not negative, so [start] never saw a
    negative time. *)
Theorem cursor_and_start_times_never_negative :
  forall history : list Event,
    let w := run history initialWorld in
    (0 <= nextStartTimeRef (hook w))%Q /\
    (forall i n,
       nth_error (bufferSources (browser w)) i = Some n ->
       src_connected n = true /\
       exists startAt buffer,
         src_startedAt n = Some startAt /\
         src_buffer n = Some buffer /\
         (0 <= startAt)%Q).
Proof.
  intros history w.
  destruct (Orderly_reachable history) as [H1 H2 _ _]. split; assumption.
Qed.

(** X2. In every world the hook can reach the pending set has no source
    twice, and each source in it exists, has been started and has not had
    its [ended] event dispatched; once [ended] is dispatched for a source
    whose playback is over, the source is no longer in the set. *)
Theorem pending_set_holds_undispatched_sources :
  forall history : list Event,
    let w := run history initialWorld in
    NoDup (scheduledSourcesRef (hook w)) /\
    (forall source,
       In source (scheduledSourcesRef (hook w)) ->
       exists n,
         nth_error (bufferSources (browser w)) source = Some n /\
         Web.started n = true /\
         src_notified n = false) /\
    (forall source n,
       nth_error (bufferSources (browser w)) source = Some n ->
       src_finished n = true ->
       src_notified n = false ->
       ~ In source (scheduledSourcesRef (hook (step w (Ended source))))).
Proof.
  intros history w.
  destruct (Orderly_reachable history) as [_ _ H3 H4]. fold w in H3, H4.
  pose proof (Consistent_reachable history) as HC. fold w in HC.
  split; [exact H4|]. split.
  - intros source Hsrc.
    destruct (H3 source Hsrc) as (n & Hn & Hnot).
    destruct (pending_started _ HC source Hsrc) as (n' & Hn' & Hst).
    rewrite Hn in Hn'. injection Hn' as <-. eauto.
  - intros source n Hn Hfin Hnot.
    unfold step; simpl. unfold sourceEnds. rewrite Hn, Hfin, Hnot. simpl.
    clear. open_world w. unfold onended. js_unfold. simpl.
    intro Hin. apply In_delete_neq in Hin. congruence.
Qed.

Lemma cursor_of_view (w w' : World) :
  schedulerView w' = schedulerView w ->
  (nextStartTimeRef (hook w) <= nextStartTimeRef (hook w'))%Q.
Proof.
  unfold schedulerView. intro E. injection E as -> _ _. apply Qle_refl.
Qed.

(** X3. The cursor never moves back, except through a disconnect or a
    message that signals an interruption. *)
Theorem cursor_only_drops_on_reset :
  forall (w : World) (e : Event),
    resets e = false ->
    (nextStartTimeRef (hook w) <= nextStartTimeRef (hook (step w e)))%Q.
Proof.
  intros w e He. unfold step. destruct e; simpl in *; try discriminate.
  - apply cursor_of_view, schedulerView_connect.
  - apply cursor_of_view, schedulerView_updateVoiceParams.
  - apply cursor_of_view, schedulerView_channelOpens.
  - unfold channelDelivers.
    assert (nextStartTimeRef (hook w) <=
            nextStartTimeRef (hook (after (onmessage currentTime message w))))%Q
      as H.
    { unfold onmessage, bind at 1, read at 1, bind at 1, read at 1.
      rewrite He.
      destruct (inlineData message) as [[audioBuffer|]|];
        try apply Qle_refl;
        destruct (outputAudioContextRef (hook w)) as [ctx|];
        try apply Qle_refl;
        destruct (gainNodeRef (hook w)); try apply Qle_refl.
      unfold bind at 1, bind at 1, decodeAudioData, ret at 1.
      rewrite schedulePlayback_effect. simpl.
      pose proof (Math_max_ge_l (nextStartTimeRef (hook w)) currentTime).
      pose proof (duration_nonneg audioBuffer).
      destruct w as [h b l]; destruct h; simpl in *. lra. }
    destruct (sessionState w session) as [[| | |]|];
      auto; apply Qle_refl.
  - apply cursor_of_view, schedulerView_channelCloses.
  - apply cursor_of_view, schedulerView_channelFails.
  - unfold playbackFinishes.
    destruct (nth_error (bufferSources (browser w)) source) as [n|];
      [|apply Qle_refl].
    destruct (Web.started n && negb (src_finished n)); [|apply Qle_refl].
    open_world w. apply Qle_refl.
  - unfold sourceEnds.
    destruct (nth_error (bufferSources (browser w)) source) as [n|];
      [|apply Qle_refl].
    destruct (src_finished n && negb (src_notified n)); [|apply Qle_refl].
    open_world w. apply Qle_refl.
  - apply cursor_of_view, schedulerView_deviceDelivers.
Qed.

Lemma cursor_only_drops_on_reset_witness :
  let w :=
    run [Connect friendly INITIAL_CONFIG None; Opened 0;
         Message 0 0 (audioMessage 5)] initialWorld in
  resets (Message 0 (2 # 10) (audioMessage 3)) = false /\
  (nextStartTimeRef (hook w) <=
   nextStartTimeRef (hook (step w (Message 0 (2 # 10) (audioMessage 3)))))%Q.
Proof.
  intro w. split; [reflexivity|].
  apply cursor_only_drops_on_reset. reflexivity.
Defined.

(** ** Messages *)

Lemma onmessage_decoded (w : World) (ctx : nat) (gain : GainNode)
  (currentTime : Q) (audioBuffer : AudioBuffer) (flag : bool) :
  outputAudioContextRef (hook w) = Some ctx ->
  gainNodeRef (hook w) = Some gain ->
  onmessage currentTime
    {| inlineData := Some (Decodes audioBuffer); interrupted := flag |} w =
  (if flag then handleInterruption else ret tt)
    (after (schedulePlayback ctx currentTime audioBuffer w)).
Proof.
  intros Hctx Hgain. unfold onmessage, bind, read.
  rewrite Hctx, Hgain. simpl. unfold decodeAudioData, ret at 1.
  rewrite schedulePlayback_effect. reflexivity.
Qed.

Lemma onmessage_without_output (w : World) (currentTime : Q)
  (message : LiveServerMessage) :
  outputAudioContextRef (hook w) = None ->
  onmessage currentTime message w =
  (if interrupted message then handleInterruption else ret tt) w.
Proof.
  intro Hout. unfold onmessage, bind, read. rewrite Hout.
  destruct (inlineData message); reflexivity.
Qed.

Lemma forceStop_all_length (pending : list nat) :
  forall ns : list AudioBufferSourceNode,
    List.length (fold_left forceStop pending ns) = List.length ns.
Proof.
  induction pending as [|x pending IH]; intro ns; simpl; [reflexivity|].
  rewrite IH. unfold forceStop.
  destruct (nth_error ns x) as [k|]; [|reflexivity].
  destruct (Web.started k); [|reflexivity].
  clear. revert x. induction ns as [|y ns IH]; intros [|x]; simpl; auto.
Qed.

(** X4. A message that carries audio and signals an interruption has its
    own chunk scheduled and stopped at once: the new source is in the heap
    with its buffer and a stop in effect, the pending set is empty and the
    cursor is 0. *)
Theorem audio_with_interruption_is_stopped_at_once :
  forall (w : World) (ctx : nat) (gain : GainNode) (currentTime : Q)
         (audioBuffer : AudioBuffer),
    outputAudioContextRef (hook w) = Some ctx ->
    gainNodeRef (hook w) = Some gain ->
    let message :=
      {| inlineData := Some (Decodes audioBuffer); interrupted := true |} in
    let w' := after (onmessage currentTime message w) in
    returned (onmessage currentTime message w) = true /\
    scheduledSourcesRef (hook w') = JsSet.empty /\
    nextStartTimeRef (hook w') = 0 /\
    List.length (bufferSources (browser w')) =
      S (List.length (bufferSources (browser w))) /\
    exists n,
      nth_error (bufferSources (browser w'))
        (List.length (bufferSources (browser w))) = Some n /\
      src_buffer n = Some audioBuffer /\
      src_stopped n = true.
Proof.
  intros w ctx gain currentTime audioBuffer Hctx Hgain message w'.
  subst w' message.
  rewrite (onmessage_decoded w ctx gain currentTime audioBuffer true Hctx
             Hgain).
  rewrite schedulePlayback_effect. cbv beta iota zeta.
  rewrite handleInterruption_effect. simpl.
  set (startAt := Math_max (nextStartTimeRef (hook w)) currentTime).
  set (node := scheduledNode ctx startAt audioBuffer).
  set (srcs := bufferSources (browser w)).
  set (pending := JsSet.add (List.length srcs) (scheduledSourcesRef (hook w))).
  assert (In (List.length srcs) pending) as Hin.
  { unfold pending, JsSet.add.
    destruct (JsSet.has (List.length srcs) (scheduledSourcesRef (hook w)))
      eqn:E.
    - now apply has_In.
    - apply in_or_app. right. now left. }
  assert (nth_error (srcs ++ [node]) (List.length srcs) = Some node) as Hnode
    by apply nth_error_last.
  destruct (forceStop_all_node pending _ _ _ Hnode)
    as (n' & Hn' & _ & _ & _ & Hhit).
  destruct (forceStop_all_shape pending _ _ _ Hn') as (m & Hm & Hshape).
  rewrite Hnode in Hm. injection Hm as <-.
  split; [reflexivity|]. split; [reflexivity|]. split; [reflexivity|].
  split.
  { rewrite forceStop_all_length, length_app. simpl. lia. }
  exists n'. split; [exact Hn'|].
  specialize (Hhit Hin eq_refl).
  destruct Hshape as [->| ->].
  - discriminate.
  - split; reflexivity.
Qed.

Lemma audio_with_interruption_is_stopped_at_once_witness :
  let w := run [Connect friendly INITIAL_CONFIG None; Opened 0] initialWorld in
  let w' :=
    after (onmessage (1 # 10)
             {| inlineData := Some (Decodes (chunk 5)); interrupted := true |}
             w) in
  outputAudioContextRef (hook w) = Some 1%nat /\
  isSome (gainNodeRef (hook w)) = true /\
  scheduledSourcesRef (hook w') = JsSet.empty /\
  nextStartTimeRef (hook w') = 0.
Proof.
  intros w w'. split; [reflexivity|]. split; [reflexivity|].
  destruct (gainNodeRef (hook w)) as [gain|] eqn:Hgain; [|discriminate].
  destruct (audio_with_interruption_is_stopped_at_once w 1 gain (1 # 10)
              (chunk 5) eq_refl Hgain) as (_ & H1 & H2 & _).
  split; assumption.
Defined.

(** X5. When the audio of a message cannot be decoded, the handler throws
    and leaves the world as it was: nothing is scheduled, and an
    interruption signalled by the same message is not carried out. *)
Theorem undecodable_audio_skips_interruption :
  forall (w : World) (ctx : nat) (gain : GainNode) (currentTime : Q)
         (flag : bool),
    outputAudioContextRef (hook w) = Some ctx ->
    gainNodeRef (hook w) = Some gain ->
    exists e,
      onmessage currentTime
        {| inlineData := Some Malformed; interrupted := flag |} w =
      Threw e w.
Proof.
  intros w ctx gain currentTime flag Hctx Hgain.
  unfold onmessage, bind at 1, read at 1, bind at 1, read at 1.
  rewrite Hctx, Hgain. simpl.
  unfold bind, decodeAudioData, throw. eexists. reflexivity.
Qed.

Lemma undecodable_audio_skips_interruption_witness :
  let w :=
    run [Connect friendly INITIAL_CONFIG None; Opened 0;
         Message 0 0 (audioMessage 5)] initialWorld in
  let w' :=
    after (onmessage (1 # 10)
             {| inlineData := Some Malformed; interrupted := true |} w) in
  outputAudioContextRef (hook w) = Some 1%nat /\
  isSome (gainNodeRef (hook w)) = true /\
  scheduledSourcesRef (hook w) = [0%nat] /\
  w' = w.
Proof.
  intros w w'. split; [reflexivity|]. split; [reflexivity|].
  split; [reflexivity|].
  destruct (gainNodeRef (hook w)) as [gain|] eqn:Hgain; [|discriminate].
  destruct (undecodable_audio_skips_interruption w 1 gain (1 # 10) true
              eq_refl Hgain) as (e & H).
  subst w'. rewrite H. reflexivity.
Defined.

(** X6. After a [disconnect] that has run to its end, in whatever world
    the hook had reached through calls and callbacks run to completion, a
    message changes nothing in the scheduler: no source is created, the
    pending set stays empty and the cursor stays 0. *)
Theorem no_playback_after_disconnect :
  forall (history : list Event) (currentTime : Q) (data : option AudioBuffer)
         (flag : bool),
    let w := run history initialWorld in
    let w1 := after (disconnect w) in
    let message :=
      {| inlineData := option_map Decodes data; interrupted := flag |} in
    returned (onmessage currentTime message w1) = true /\
    schedulerView (after (onmessage currentTime message w1)) =
      (0, JsSet.empty, bufferSources (browser w)).
Proof.
  intros history currentTime data flag w w1 message.
  pose proof (Consistent_reachable history) as HC. fold w in HC.
  destruct (disconnect_tears_down w HC) as (v & E & T & _).
  destruct (disconnect_effect w HC) as (v' & E' & _ & _ & _ & _ & Hs & _).
  rewrite E in E'. injection E' as <-.
  subst w1. rewrite E. simpl.
  destruct T as [_ _ _ _ Hout _ _ Hpend Hnext _].
  rewrite (onmessage_without_output v currentTime message Hout).
  subst message. simpl.
  destruct flag; simpl.
  - rewrite handleInterruption_effect. simpl. split; [reflexivity|].
    unfold schedulerView; simpl. rewrite Hpend. simpl.
    open_world v. simpl in *. now subst.
  - split; [reflexivity|]. unfold schedulerView.
    now rewrite Hnext, Hpend, Hs.
Qed.

(** ** Devices over the life of a session *)

Section FreshObjects.

Context {A : Type}.

Lemma nth_error_at_length (l r : list A) (x : A) :
  nth_error (l ++ x :: r) (List.length l) = Some x.
Proof. induction l; simpl; auto. Qed.

Lemma nth_error_after_length (l r : list A) (x y : A) :
  nth_error (l ++ x :: y :: r) (S (List.length l)) = Some y.
Proof. induction l; simpl; auto. Qed.

Lemma update_at_length (f : A -> A) (l r : list A) (x : A) :
  update (List.length l) f (l ++ x :: r) = l ++ f x :: r.
Proof.
  induction l as [|a l IH]; [reflexivity|]. simpl. f_equal. exact IH.
Qed.

Lemma update_after_length (f : A -> A) (l r : list A) (x y : A) :
  update (S (List.length l)) f (l ++ x :: y :: r) = l ++ x :: f y :: r.
Proof.
  induction l as [|a l IH]; [reflexivity|].
  change (a :: update (S (List.length l)) f (l ++ x :: y :: r) =
          a :: l ++ x :: f y :: r).
  f_equal. exact IH.
Qed.

Lemma length_snoc (l : list A) (x : A) :
  List.length (l ++ [x]) = S (List.length l).
Proof. rewrite length_app. simpl. lia. Qed.

Lemma snoc_snoc (l : list A) (x y : A) : (l ++ [x]) ++ [y] = l ++ [x; y].
Proof. now rewrite <- app_assoc. Qed.

End FreshObjects.

Arguments nth_error : simpl never.
Arguments update : simpl never.

Ltac fresh_norm :=
  repeat (first
    [ rewrite snoc_snoc
    | rewrite length_snoc
    | rewrite nth_error_at_length
    | rewrite nth_error_after_length
    | rewrite update_at_length
    | rewrite update_after_length
    | rewrite nth_error_last
    | rewrite update_last ]; simpl).

Lemma connect_success (env : Environment) (config : VoiceConfig)
  (clonedStyleInstruction : option string) (w : World) :
  truthy (API_KEY env) = true ->
  microphone env = Web.Granted ->
  connect env config clonedStyleInstruction w =
  Returned tt (connected config clonedStyleInstruction w).
Proof.
  intros Hkey Hmike. destruct env as [key mike]. simpl in *. subst mike.
  open_world w. unfold connect, connected; js_unfold; simpl.
  rewrite Hkey; simpl. fresh_norm. reflexivity.
Qed.

Lemma openHandles_grow (w : World) (cs : list AudioContext)
  (ss : list MediaStream) (w' : World) :
  contexts (browser w') = contexts (browser w) ++ cs ->
  streams (browser w') = streams (browser w) ++ ss ->
  openHandles w' = (openHandles w + openContexts cs + liveStreams ss)%nat.
Proof.
  intros Hc Hs. unfold openHandles, openContexts, liveStreams.
  rewrite Hc, Hs, !filter_app, !length_app. lia.
Qed.

(** X7. A [connect] opens handles and closes none: the contexts and
    streams that existed are still there, unchanged, and the number of
    open handles grows by three when it succeeds, by two when the
    microphone is refused and not at all when the key is missing. *)
Theorem connect_opens_handles_and_closes_none :
  forall (env : Environment) (config : VoiceConfig)
         (clonedStyleInstruction : option string) (w : World),
    let w' := after (connect env config clonedStyleInstruction w) in
    (exists cs, contexts (browser w') = contexts (browser w) ++ cs) /\
    (exists ss, streams (browser w') = streams (browser w) ++ ss) /\
    openHandles w' = (openHandles w + acquired env)%nat.
Proof.
  intros [key mike] config clonedStyleInstruction w w'. subst w'.
  unfold acquired. simpl.
  destruct (truthy key) eqn:Hkey; [destruct mike as [|reason]|].
  - rewrite (connect_success {| API_KEY := key; microphone := Web.Granted |}
               config clonedStyleInstruction w Hkey eq_refl).
    simpl. split; [eauto|]. split; [eauto|].
    erewrite openHandles_grow; [|reflexivity|reflexivity].
    unfold openContexts, liveStreams. simpl. lia.
  - assert (exists w1,
              after (connect {| API_KEY := key;
                                microphone := Web.Rejected reason |}
                       config clonedStyleInstruction w) = w1 /\
              contexts (browser w1) =
                contexts (browser w)
                  ++ [{| ctx_sampleRate := PCM_SAMPLE_RATE;
                         ctx_closed := false |};
                      {| ctx_sampleRate := OUTPUT_SAMPLE_RATE;
                         ctx_closed := false |}] /\
              streams (browser w1) = streams (browser w) ++ [])
      as (w1 & -> & Hc & Hs).
    { open_world w. unfold connect; js_unfold; simpl. rewrite Hkey; simpl.
      eexists. split; [reflexivity|]. simpl. fresh_norm.
      split; [reflexivity|]. now rewrite app_nil_r. }
    split; [eauto|]. split; [eauto|].
    rewrite (openHandles_grow w _ _ w1 Hc Hs).
    unfold openContexts, liveStreams. simpl. lia.
  - assert (browser
              (after (connect {| API_KEY := key; microphone := mike |}
                        config clonedStyleInstruction w)) = browser w) as Hb.
    { open_world w. unfold connect; js_unfold; simpl. rewrite Hkey.
      reflexivity. }
    unfold openHandles. rewrite Hb.
    split; [exists []; now rewrite app_nil_r|].
    split; [exists []; now rewrite app_nil_r|]. lia.
Qed.

Ltac run_call f tac :=
  match goal with
  | |- context [f ?x] =>
      let E := fresh "E" in
      eassert (E : f x = Returned tt _) by tac;
      rewrite E; clear E; cbn [after returned]; simpl
  end.



Lemma connect_then_open (env : Environment) (config : VoiceConfig)
  (clonedStyleInstruction : option string) (w : World) :
  truthy (API_KEY env) = true ->
  microphone env = Web.Granted ->
  after (channelOpens (List.length (sessions (browser w)))
           (after (connect env config clonedStyleInstruction w))) =
  capturing config clonedStyleInstruction w.
Proof.
  intros Hkey Hmike.
  rewrite (connect_success env config clonedStyleInstruction w Hkey Hmike).
  clear. open_world w. unfold connected, capturing. simpl.
  run_call (channelOpens (List.length sesss))
    ltac:(unfold channelOpens, sessionState, waiting; simpl; fresh_norm;
          unfold onopen; js_unfold; simpl; fresh_norm; reflexivity).
  reflexivity.
Qed.

(** X9. When a [connect] succeeds and its channel opens, the hook is
    [CONNECTED] without an error, and capture is wired: a media source on
    the new stream and a processor of 4096 frames, both in the new input
    context and both connected, the processor's handler bound to the new
    session. *)
Theorem connect_then_open_wires_capture :
  forall (env : Environment) (config : VoiceConfig)
         (clonedStyleInstruction : option string) (w : World),
    truthy (API_KEY env) = true ->
    microphone env = Web.Granted ->
    let s := List.length (sessions (browser w)) in
    let inputCtx := List.length (contexts (browser w)) in
    let w2 :=
      after (channelOpens s
               (after (connect env config clonedStyleInstruction w))) in
    connectionState (hook w2) = CONNECTED /\
    error (hook w2) = None /\
    sessionRef (hook w2) = Some s /\
    sessionState w2 s = Some Open /\
    inputSourceRef (hook w2) = Some (List.length (micSources (browser w))) /\
    processorRef (hook w2) = Some (List.length (processors (browser w))) /\
    micSources (browser w2) =
      micSources (browser w)
        ++ [{| mic_ctx := inputCtx;
               mic_stream := List.length (streams (browser w));
               mic_connected := true |}] /\
    processors (browser w2) =
      processors (browser w)
        ++ [{| proc_ctx := inputCtx; proc_bufferSize := 4096;
               proc_onaudioprocess := Some s; proc_connected := true |}].
Proof.
  intros env config clonedStyleInstruction w Hkey Hmike s inputCtx w2.
  subst w2 inputCtx s.
  rewrite (connect_then_open env config clonedStyleInstruction w Hkey Hmike).
  unfold capturing, sessionState. simpl. rewrite nth_error_last.
  repeat split; reflexivity.
Qed.

Lemma connect_then_open_wires_capture_witness :
  let w2 :=
    after (channelOpens 0
             (after (connect friendly INITIAL_CONFIG None initialWorld))) in
  truthy (API_KEY friendly) = true /\
  microphone friendly = Web.Granted /\
  connectionState (hook w2) = CONNECTED /\
  processorRef (hook w2) = Some 0%nat.
Proof.
  intros w2. split; [reflexivity|]. split; [reflexivity|].
  destruct (connect_then_open_wires_capture friendly INITIAL_CONFIG None
              initialWorld eq_refl eq_refl)
    as (H1 & _ & _ & _ & _ & H2 & _).
  split; assumption.
Defined.

(** X10. A whole session leaks nothing: in every world the hook can
    reach, after a [connect] that succeeds, the opening of its channel and
    a [disconnect], as many handles are open as before the [connect]; the
    stream and both contexts of the session are released, its processor
    and media source are disconnected, and its channel is closing. *)
Theorem session_releases_what_it_acquired :
  forall (history : list Event) (env : Environment) (config : VoiceConfig)
         (clonedStyleInstruction : option string),
    truthy (API_KEY env) = true ->
    microphone env = Web.Granted ->
    let w := run history initialWorld in
    let s := List.length (sessions (browser w)) in
    let w2 :=
      after (channelOpens s
               (after (connect env config clonedStyleInstruction w))) in
    let w3 := after (disconnect w2) in
    returned (disconnect w2) = true /\
    connectionState (hook w3) = DISCONNECTED /\
    openHandles w3 = openHandles w /\
    contexts (browser w3) =
      contexts (browser w)
        ++ [{| ctx_sampleRate := PCM_SAMPLE_RATE; ctx_closed := true |};
            {| ctx_sampleRate := OUTPUT_SAMPLE_RATE; ctx_closed := true |}] /\
    streams (browser w3) =
      streams (browser w) ++ [{| stream_stopped := true |}] /\
    option_map proc_connected
      (nth_error (processors (browser w3))
         (List.length (processors (browser w)))) = Some false /\
    option_map mic_connected
      (nth_error (micSources (browser w3))
         (List.length (micSources (browser w)))) = Some false /\
    sessionState w3 s = Some Closing.
Proof.
  intros history env config clonedStyleInstruction Hkey Hmike w s w2 w3.
  assert (Consistent w2) as HC.
  { apply Consistent_channelOpens, Consistent_connect.
    apply Consistent_reachable. }
  destruct (disconnect_tears_down w2 HC) as (v & E & T & _).
  destruct (disconnect_effect w2 HC)
    as (v' & E' & Hctx & Hstr & Hproc & Hmic & _ & _ & _ & _ & Hsess).
  rewrite E in E'. injection E' as <-.
  subst w3. rewrite E. simpl.
  assert (w2 = capturing config clonedStyleInstruction w) as Hw2
    by (apply connect_then_open; assumption).
  clear E HC. rewrite Hw2 in Hctx, Hstr, Hproc, Hmic, Hsess.
  unfold capturing in Hctx, Hstr, Hproc, Hmic, Hsess.
  simpl in Hctx, Hstr, Hproc, Hmic, Hsess.
  unfold closeAt in Hctx. unfold stopAt in Hstr. unfold requestClose in Hsess.
  rewrite update_at_length, update_after_length in Hctx.
  rewrite update_last in Hstr.
  rewrite (update_last unwireProcessor (processors (browser w))) in Hproc.
  rewrite (update_last unwireMic (micSources (browser w))) in Hmic.
  rewrite nth_error_last in Hsess. simpl in Hsess.
  rewrite update_last in Hsess.
  split; [reflexivity|]. split; [apply (td_state _ T)|].
  split.
  { unfold openHandles. rewrite Hctx, Hstr, !filter_app. simpl.
    now rewrite !app_nil_r. }
  split; [exact Hctx|]. split; [exact Hstr|].
  split; [rewrite Hproc, nth_error_last; reflexivity|].
  split; [rewrite Hmic, nth_error_last; reflexivity|].
  unfold sessionState. rewrite Hsess. subst s.
  rewrite nth_error_last. reflexivity.
Qed.

Lemma session_releases_what_it_acquired_witness :
  let w2 :=
    after (channelOpens 0
             (after (connect friendly INITIAL_CONFIG None initialWorld))) in
  let w3 := after (disconnect w2) in
  truthy (API_KEY friendly) = true /\
  microphone friendly = Web.Granted /\
  connectionState (hook w3) = DISCONNECTED /\
  openHandles w3 = 0%nat.
Proof.
  intros w2 w3. split; [reflexivity|]. split; [reflexivity|].
  destruct (session_releases_what_it_acquired [] friendly INITIAL_CONFIG None
              eq_refl eq_refl)
    as (_ & H1 & H2 & _).
  split; assumption.
Defined.

(** X11. In every world the hook can reach through calls and callbacks
    run to completion, a [disconnect] that runs alone closes the contexts
    the two context refs name and stops the stream [streamRef] names, and
    touches no other context or stream; it stops no source node, and it
    keeps [sessionRef], [analyserRef] and [gainNodeRef], so the hook goes
    on exposing the analyser of a closed context. *)
Theorem disconnect_releases_named_devices :
  forall history : list Event,
    let w := run history initialWorld in
    let w1 := after (disconnect w) in
    (forall c,
       inputAudioContextRef (hook w) = Some c \/
       outputAudioContextRef (hook w) = Some c ->
       option_map ctx_closed (nth_error (contexts (browser w1)) c)
       = Some true) /\
    (forall c,
       inputAudioContextRef (hook w) <> Some c ->
       outputAudioContextRef (hook w) <> Some c ->
       nth_error (contexts (browser w1)) c =
       nth_error (contexts (browser w)) c) /\
    (forall s x,
       streamRef (hook w) = Some s ->
       nth_error (streams (browser w)) s = Some x ->
       nth_error (streams (browser w1)) s = Some {| stream_stopped := true |})
    /\
    (forall s,
       streamRef (hook w) <> Some s ->
       nth_error (streams (browser w1)) s = nth_error (streams (browser w)) s)
    /\
    bufferSources (browser w1) = bufferSources (browser w) /\
    sessionRef (hook w1) = sessionRef (hook w) /\
    analyserRef (hook w1) = analyserRef (hook w) /\
    gainNodeRef (hook w1) = gainNodeRef (hook w).
Proof.
  intros history w w1.
  pose proof (Consistent_reachable history) as HC. fold w in HC.
  destruct (disconnect_effect w HC)
    as (v & E & Hctx & Hstr & _ & _ & Hsrc & Hsess & Han & Hgain & _).
  subst w1. rewrite E. simpl.
  destruct HC as [Hin Hout Hapart _ _ _].
  repeat split; try assumption.
  - intros c [Hc|Hc]; rewrite Hctx.
    + rewrite Hc in Hin. destruct Hin as (x & Hx & _).
      unfold closeAt at 2. rewrite Hc.
      destruct (outputAudioContextRef (hook w)) as [co|] eqn:Hco; simpl.
      * assert (co <> c) as Hneq.
        { intros ->. exact (Hapart c Hc eq_refl). }
        rewrite nth_error_update_neq by assumption.
        now rewrite nth_error_update_eq, Hx.
      * now rewrite nth_error_update_eq, Hx.
    + rewrite Hc in Hout. destruct Hout as (x & Hx & _).
      rewrite Hc. unfold closeAt at 1. rewrite nth_error_update_eq.
      destruct (inputAudioContextRef (hook w)) as [ci|] eqn:Hci; simpl.
      * destruct (Nat.eq_dec ci c) as [->|Hneq].
        -- now rewrite nth_error_update_eq, Hx.
        -- rewrite nth_error_update_neq by assumption. now rewrite Hx.
      * now rewrite Hx.
  - intros c Hi Ho. rewrite Hctx. unfold closeAt.
    destruct (outputAudioContextRef (hook w)) as [co|];
      [rewrite nth_error_update_neq by congruence|];
      (destruct (inputAudioContextRef (hook w)) as [ci|];
       [rewrite nth_error_update_neq by congruence|]); reflexivity.
  - intros s x Hs Hx. rewrite Hstr, Hs. simpl.
    now rewrite nth_error_update_eq, Hx.
  - intros s Hs. rewrite Hstr. unfold stopAt.
    destruct (streamRef (hook w)) as [s'|]; [|reflexivity].
    rewrite nth_error_update_neq by congruence. reflexivity.
Qed.

(** X12. A block of samples the device delivers to a connected processor
    sets the volume and is sent on the session the processor's handler
    captured, whichever session [sessionRef] names: appended to what was
    sent when that channel is open, dropped when the channel is closing or
    closed; no other channel is touched. *)
Theorem captured_audio_goes_to_its_own_session :
  forall (w : World) (processor session : nat) (p : ScriptProcessorNode)
         (l : LiveSession) (pcmBlob : PcmBlob) (rms : Q),
    nth_error (processors (browser w)) processor = Some p ->
    proc_onaudioprocess p = Some session ->
    proc_connected p = true ->
    nth_error (sessions (browser w)) session = Some l ->
    chan_state l <> Pending ->
    let w' := after (deviceDelivers processor pcmBlob rms w) in
    returned (deviceDelivers processor pcmBlob rms w) = true /\
    volume (hook w') = rms /\
    hook w' = with_volume rms (hook w) /\
    nth_error (sessions (browser w')) session =
      Some (if match chan_state l with Open => true | _ => false end
            then Live.push (Media pcmBlob) l else l) /\
    (forall other, other <> session ->
       nth_error (sessions (browser w')) other =
       nth_error (sessions (browser w)) other).
Proof.
  intros w processor session p l pcmBlob rms Hp Hhandler Hwired Hl Hstate w'.
  subst w'. unfold deviceDelivers. rewrite Hp, Hhandler, Hwired.
  open_world w. simpl in *.
  unfold onaudioprocess; js_unfold; simpl. rewrite Hl.
  destruct (chan_state l) eqn:Hc; try congruence; simpl; rewrite ?Hl;
    simpl; rewrite ?Hc; simpl.
  - split; [reflexivity|]. split; [reflexivity|]. split; [reflexivity|].
    split; [now rewrite nth_error_update_eq, Hl|].
    intros other Hother. now apply nth_error_update_neq.
  - repeat split; auto.
  - repeat split; auto.
Qed.

Lemma captured_audio_goes_to_its_own_session_witness :
  let w :=
    run [Connect friendly INITIAL_CONFIG None; Opened 0;
         ChannelError 0 (JsOther "network");
         Connect friendly INITIAL_CONFIG None] initialWorld in
  let w' := after (deviceDelivers 0 "pcm"%string (1 # 2) w) in
  sessionRef (hook w) = Some 1%nat /\
  option_map proc_onaudioprocess (nth_error (processors (browser w)) 0)
    = Some (Some 0%nat) /\
  option_map chan_sent (nth_error (sessions (browser w')) 0)
    = Some [Media "pcm"%string] /\
  option_map chan_sent (nth_error (sessions (browser w')) 1) = Some [].
Proof.
  intros w w'. split; [reflexivity|]. split; [reflexivity|].
  destruct (nth_error (processors (browser w)) 0) as [p|] eqn:Hp;
    [|discriminate].
  destruct (nth_error (sessions (browser w)) 0) as [l|] eqn:Hl;
    [|discriminate].
  assert (proc_onaudioprocess p = Some 0%nat) as H1
    by (vm_compute in Hp; injection Hp as <-; reflexivity).
  assert (proc_connected p = true) as H2
    by (vm_compute in Hp; injection Hp as <-; reflexivity).
  assert (chan_state l = Open) as H3
    by (vm_compute in Hl; injection Hl as <-; reflexivity).
  assert (chan_state l <> Pending) as H4 by (rewrite H3; discriminate).
  destruct (captured_audio_goes_to_its_own_session w 0 0 p l "pcm"%string
              (1 # 2) Hp H1 H2 Hl H4) as (_ & _ & _ & Hsent & Hother).
  subst w'. split.
  - rewrite Hsent, H3. vm_compute in Hl. injection Hl as <-. reflexivity.
  - rewrite (Hother 1%nat) by discriminate. reflexivity.
Defined.

(** X13. A channel that closes or reports an error tears nothing down:
    the hook changes in its connection state (and error) only, every ref
    and every device object stays as it was, so the microphone stays open
    and capture goes on until [disconnect] is called. *)
Theorem remote_close_or_error_keeps_devices :
  forall (w : World) (session : nat) (reason : JsValue),
    let closed := after (channelCloses session w) in
    let failed := after (channelFails session reason w) in
    (hook closed = hook w \/
     hook closed = with_connectionState DISCONNECTED (hook w)) /\
    (hook failed = hook w \/
     hook failed =
       with_connectionState ERROR
         (with_error (Some (reportedText reason)) (hook w))) /\
    contexts (browser closed) = contexts (browser w) /\
    streams (browser closed) = streams (browser w) /\
    processors (browser closed) = processors (browser w) /\
    micSources (browser closed) = micSources (browser w) /\
    browser failed = browser w /\
    openHandles closed = openHandles w /\
    openHandles failed = openHandles w.
Proof.
  intros w session reason closed failed. subst closed failed.
  unfold channelCloses, channelFails, openHandles.
  open_world w. unfold sessionState. simpl.
  destruct (nth_error sesss session) as [l|]; simpl.
  - destruct (chan_state l), reason; unfold onclose, onerror; js_unfold;
      simpl; repeat split; auto.
  - repeat split; auto.
Qed.

(** ** Calls of [disconnect], alone and overlapping *)

(** The segments of [disconnect], run with nothing in between, are the
    call run as one step. *)
Lemma disconnect_alone_eq (w : World) : disconnect_alone w = disconnect w.
Proof.
  open_world w.
  unfold disconnect_alone, disconnect_complete, disconnect_resume,
    disconnect_begin, disconnect_output, disconnect_finish, disconnect.
  js_unfold. simpl.
  destruct str, proc, mic, inC, outC, sess; simpl; split_all; reflexivity.
Qed.

(** A call that finds the device refs [null] and the input ref on a
    context that is closed already rejects at line 216, with nothing
    changed. *)
Lemma disconnect_rejects_at_input (w : World) (c : nat) (x : AudioContext) :
  streamRef (hook w) = None ->
  processorRef (hook w) = None ->
  inputSourceRef (hook w) = None ->
  inputAudioContextRef (hook w) = Some c ->
  nth_error (contexts (browser w)) c = Some x ->
  ctx_closed x = true ->
  disconnect_begin w = Threw Web.InvalidStateError w /\
  disconnect w = Threw Web.InvalidStateError w.
Proof.
  open_world w. simpl. intros -> -> -> -> Hx Hclosed.
  unfold disconnect_begin, disconnect. js_unfold. simpl.
  rewrite Hx, Hclosed. split; reflexivity.
Qed.

(** The same at line 221, for the output ref when the input ref is [null]
    already. *)
Lemma disconnect_rejects_at_output (w : World) (c : nat) (x : AudioContext) :
  streamRef (hook w) = None ->
  processorRef (hook w) = None ->
  inputSourceRef (hook w) = None ->
  inputAudioContextRef (hook w) = None ->
  outputAudioContextRef (hook w) = Some c ->
  nth_error (contexts (browser w)) c = Some x ->
  ctx_closed x = true ->
  disconnect_begin w = Threw Web.InvalidStateError w /\
  disconnect w = Threw Web.InvalidStateError w.
Proof.
  open_world w. simpl. intros -> -> -> -> -> Hx Hclosed.
  unfold disconnect_begin, disconnect_output, disconnect. js_unfold. simpl.
  rewrite Hx, Hclosed. split; reflexivity.
Qed.

(** Up to its first [await] a call releases the microphone side and calls
    [close()] on the input context; the ref still names the context, and
    state, volume and scheduler are as before. *)
Lemma disconnect_begin_suspends (w : World) (c : nat) :
  Consistent w ->
  inputAudioContextRef (hook w) = Some c ->
  exists wa x,
    disconnect_begin w = Returned (Some AtInputClose) wa /\
    streamRef (hook wa) = None /\
    processorRef (hook wa) = None /\
    inputSourceRef (hook wa) = None /\
    inputAudioContextRef (hook wa) = Some c /\
    nth_error (contexts (browser wa)) c = Some x /\
    ctx_closed x = true /\
    connectionState (hook wa) = connectionState (hook w) /\
    volume (hook wa) = volume (hook w) /\
    scheduledSourcesRef (hook wa) = scheduledSourcesRef (hook w) /\
    nextStartTimeRef (hook wa) = nextStartTimeRef (hook w).
Proof.
  intros H Hc. open_world w. use_consistent H. subst inC.
  destruct Hin as (xi & Hxi & Hci). clear Hout Hapart Hpend Hconn Herr.
  destruct str, proc, mic.
  all: unfold disconnect_begin; js_unfold; simpl; rewrite Hxi, Hci; simpl.
  all: eexists; eexists; (split; [reflexivity|]); simpl.
  all: rewrite nth_error_update_eq, Hxi; simpl.
  all: repeat split; reflexivity.
Qed.

(** A call suspended at its first [await] and resumed with the world as
    it left it: at the second [await] the output ref names a context that
    is closed. *)
Lemma disconnect_resume_suspends (w wb : World) :
  streamRef (hook w) = None ->
  processorRef (hook w) = None ->
  inputSourceRef (hook w) = None ->
  disconnect_resume AtInputClose w = Returned (Some AtOutputClose) wb ->
  exists c x,
    streamRef (hook wb) = None /\
    processorRef (hook wb) = None /\
    inputSourceRef (hook wb) = None /\
    inputAudioContextRef (hook wb) = None /\
    outputAudioContextRef (hook wb) = Some c /\
    nth_error (contexts (browser wb)) c = Some x /\
    ctx_closed x = true.
Proof.
  open_world w. simpl. intros -> -> ->.
  unfold disconnect_resume, disconnect_output, disconnect_finish.
  js_unfold. simpl.
  destruct outC as [co|]; simpl.
  - destruct (nth_error ctxs co) as [xo|] eqn:Hxo; simpl; [|discriminate].
    destruct (ctx_closed xo) eqn:Hco; simpl; [discriminate|].
    intro E. injection E as <-. simpl.
    exists co. eexists. rewrite nth_error_update_eq, Hxo. simpl.
    repeat split; reflexivity.
  - destruct sess as [s|]; simpl; [|discriminate].
    destruct (nth_error sesss s) as [l|]; simpl; [|discriminate].
    destruct (chan_state l); simpl; split_all; discriminate.
Qed.







(** ** App and its controls *)

(** X14. The button "Apply Changes Live" is drawn only while the hook is
    [CONNECTING], and in that state applying the settings sends nothing
    and changes nothing: the button never reaches the session. *)
Theorem apply_button_never_sends :
  forall (app : AppState) (w : World),
    applyButtonShown (controlsDisabled w) = true ->
    connectionState (hook w) = CONNECTING /\
    handleApplySettings app w = Returned tt w.
Proof.
  intros app w H. unfold applyButtonShown, controlsDisabled in H.
  assert (connectionState (hook w) = CONNECTING) as Hstate
    by (destruct (connectionState (hook w)); simpl in H; congruence).
  split; [exact Hstate|].
  unfold handleApplySettings, updateVoiceParams, bind, read, ret.
  rewrite Hstate. reflexivity.
Qed.

Lemma apply_button_never_sends_witness :
  let w := run [Connect friendly INITIAL_CONFIG None] initialWorld in
  applyButtonShown (controlsDisabled w) = true /\
  handleApplySettings (initialApp []) w = Returned tt w.
Proof.
  intro w. split; [reflexivity|].
  exact (proj2 (apply_button_never_sends (initialApp []) w eq_refl)).
Defined.

Lemma toggle_when_idle (env : Environment) (app : AppState) (w : World) :
  connectionState (hook w) = DISCONNECTED \/
  connectionState (hook w) = ERROR ->
  handleToggleConnect env app w =
  connect env (config app) (activeStyle app) w.
Proof.
  intros [H|H]; unfold handleToggleConnect, bind, read; rewrite H;
    reflexivity.
Qed.


Lemma find_none_iff {A : Type} (f : A -> bool) (l : list A) :
  find f l = None <-> forall x, In x l -> f x = false.
Proof.
  split.
  - intros H x Hx. eapply find_none; eassumption.
  - induction l as [|y l IH]; intro H; simpl; [reflexivity|].
    rewrite (H y (or_introl eq_refl)). apply IH.
    intros x Hx. apply H. now right.
Qed.

Lemma find_map_same {A : Type} (f : A -> bool) (g : A -> A) (l : list A) :
  (forall x, f (g x) = f x) ->
  find f (map g l) = option_map g (find f l).
Proof.
  intro H. induction l as [|x l IH]; simpl; [reflexivity|].
  rewrite H. destruct (f x); [reflexivity|exact IH].
Qed.

Lemma find_filter_same {A : Type} (f keep : A -> bool) (l : list A) :
  (forall x, f x = true -> keep x = true) ->
  find f (filter keep l) = find f l.
Proof.
  intro H. induction l as [|x l IH]; simpl; [reflexivity|].
  destruct (keep x) eqn:Hk; simpl.
  - destruct (f x); [reflexivity|exact IH].
  - destruct (f x) eqn:Hf; [|exact IH].
    rewrite (H x Hf) in Hk. discriminate.
Qed.

Lemma find_hasId_None (l : list ClonedVoice) : find (hasId None) l = None.
Proof. induction l as [|v l IH]; [reflexivity|exact IH]. Qed.

Lemma find_appended (voice : ClonedVoice) (l : list ClonedVoice) :
  (forall v, In v l -> id v <> id voice) ->
  find (hasId (Some (id voice))) (l ++ [voice]) = Some voice.
Proof.
  induction l as [|v l IH]; intro Hfresh; simpl.
  - now rewrite String.eqb_refl.
  - assert (String.eqb (id v) (id voice) = false) as ->
      by (apply String.eqb_neq, Hfresh; now left).
    apply IH. intros x Hx. apply Hfresh. now right.
Qed.

Lemma find_listed (clone : ClonedVoice) (l : list ClonedVoice) :
  In clone l -> NoDup (map id l) ->
  find (hasId (Some (id clone))) l = Some clone.
Proof.
  induction l as [|v l IH]; intros Hin Hnodup; [destruct Hin|].
  simpl in *. inversion Hnodup as [|x xs Hnotin Hrest]; subst.
  destruct Hin as [->|Hin]; [now rewrite String.eqb_refl|].
  assert (String.eqb (id v) (id clone) = false) as ->.
  { apply String.eqb_neq. intro E. apply Hnotin. rewrite E.
    now apply in_map. }
  now apply IH.
Qed.

Lemma orElse_not_empty (value : option string) (fallback : string) :
  fallback <> EmptyString -> orElse value fallback <> EmptyString.
Proof.
  intro H. unfold orElse. destruct value as [[|a s]|]; simpl; congruence.
Qed.

Lemma truthy_not_empty (s : string) :
  s <> EmptyString -> truthy (Some s) = true.
Proof. destruct s; [congruence|reflexivity]. Qed.

(** X16. Renaming a clone changes names only: the list keeps its length
    and order, with the same ids, base voices, styles and tags; every
    clone with the given id gets the new name and every other clone is
    kept as it is; the configuration, the active clone's id and the style
    handed to the hook do not change. *)
Theorem rename_changes_names_only :
  forall (target newName : string) (app : AppState),
    let app' := handleRenameClone target newName app in
    map id (clonedVoices app') = map id (clonedVoices app) /\
    map baseVoice (clonedVoices app') = map baseVoice (clonedVoices app) /\
    map styleInstruction (clonedVoices app') =
      map styleInstruction (clonedVoices app) /\
    map tags (clonedVoices app') = map tags (clonedVoices app) /\
    (forall i v,
       nth_error (clonedVoices app) i = Some v ->
       nth_error (clonedVoices app') i =
       Some (if String.eqb (id v) target then withName newName v else v)) /\
    config app' = config app /\
    option_map id (activeClone app') = option_map id (activeClone app) /\
    activeStyle app' = activeStyle app.
Proof.
  intros target newName app app'. subst app'.
  unfold handleRenameClone, activeStyle, activeClone. simpl.
  set (f := fun v => if String.eqb (id v) target then withName newName v
                     else v).
  assert (forall v, id (f v) = id v) as Hid
    by (intro v; unfold f; destruct (String.eqb (id v) target); reflexivity).
  assert (forall v, baseVoice (f v) = baseVoice v) as Hbase
    by (intro v; unfold f; destruct (String.eqb (id v) target); reflexivity).
  assert (forall v, styleInstruction (f v) = styleInstruction v) as Hstyle
    by (intro v; unfold f; destruct (String.eqb (id v) target); reflexivity).
  assert (forall v, tags (f v) = tags v) as Htags
    by (intro v; unfold f; destruct (String.eqb (id v) target); reflexivity).
  assert (forall (A : Type) (g : ClonedVoice -> A) l,
            (forall v, g (f v) = g v) -> map g (map f l) = map g l) as Hmap.
  { intros A g l Hg. rewrite map_map. apply map_ext. exact Hg. }
  split; [now apply Hmap|]. split; [now apply Hmap|].
  split; [now apply Hmap|]. split; [now apply Hmap|].
  split.
  { intros i v Hv. rewrite nth_error_map, Hv. reflexivity. }
  split; [reflexivity|].
  rewrite (find_map_same (hasId (activeClonedVoiceId (config app))) f).
  - destruct (find _ (clonedVoices app)) as [v|]; simpl;
      [rewrite Hid, Hstyle|]; split; reflexivity.
  - intro v. unfold hasId. now rewrite Hid.
Qed.

Lemma NoDup_ids_filter (keep : ClonedVoice -> bool) (l : list ClonedVoice) :
  NoDup (map id l) -> NoDup (map id (filter keep l)).
Proof.
  induction l as [|v l IH]; simpl; intro H; [constructor|].
  inversion H as [|x xs Hnotin Hrest]; subst.
  destruct (keep v); simpl; [|now apply IH].
  constructor; [|now apply IH].
  intro Hin. apply Hnotin. apply in_map_iff in Hin.
  destruct Hin as (u & E & Hu). apply filter_In in Hu. destruct Hu as [Hu _].
  rewrite <- E. now apply in_map.
Qed.

(** X17. Deleting a clone removes every clone with that id and keeps the
    others, and distinct ids stay distinct. When the id was the active
    one the configuration falls back to the voice "Kore" with no active
    clone, and no style is handed to the hook any more; otherwise the
    configuration, the active clone and its style are as before. *)
Theorem delete_removes_clone_and_falls_back :
  forall (target : string) (app : AppState),
    let app' := onDeleteClone target app in
    (forall v,
       In v (clonedVoices app') <->
       In v (clonedVoices app) /\ id v <> target) /\
    (NoDup (map id (clonedVoices app)) ->
     NoDup (map id (clonedVoices app'))) /\
    (activeClonedVoiceId (config app) = Some target ->
     voiceName (config app') = "Kore"%string /\
     activeClonedVoiceId (config app') = None /\
     activeClone app' = None /\
     activeStyle app' = None) /\
    (activeClonedVoiceId (config app) <> Some target ->
     config app' = config app /\
     activeClone app' = activeClone app /\
     activeStyle app' = activeStyle app).
Proof.
  intros target app app'. subst app'.
  unfold onDeleteClone, activeStyle, activeClone. simpl.
  split; [|split; [|split]].
  - intro v. rewrite filter_In, negb_true_iff, String.eqb_neq. tauto.
  - apply NoDup_ids_filter.
  - intros Hactive. rewrite Hactive. simpl. rewrite String.eqb_refl. simpl.
    rewrite find_hasId_None. repeat split; reflexivity.
  - intros Hother.
    assert (sameText (activeClonedVoiceId (config app)) target = false) as E.
    { unfold sameText. destruct (activeClonedVoiceId (config app)) as [a|];
        [|reflexivity].
      apply String.eqb_neq. congruence. }
    rewrite E. split; [reflexivity|].
    rewrite find_filter_same; [split; reflexivity|].
    intros v Hv. unfold hasId in Hv.
    destruct (activeClonedVoiceId (config app)) as [a|]; [|discriminate].
    apply String.eqb_eq in Hv. apply negb_true_iff, String.eqb_neq.
    congruence.
Qed.

(** X18. A clone that comes back from the cloner is appended to the list,
    the cloner is closed, and the clone is selected with its base voice;
    when no clone in the list had its id, it is the active clone and its
    style is the one handed to the hook. *)
Theorem created_clone_becomes_active :
  forall (voice : ClonedVoice) (app : AppState),
    (forall v, In v (clonedVoices app) -> id v <> id voice) ->
    let app' := handleCloneCreated voice app in
    clonedVoices app' = clonedVoices app ++ [voice] /\
    showCloner app' = false /\
    voiceName (config app') = baseVoice voice /\
    activeClone app' = Some voice /\
    activeStyle app' = Some (styleInstruction voice) /\
    (NoDup (map id (clonedVoices app)) -> NoDup (map id (clonedVoices app'))).
Proof.
  intros voice app Hfresh app'. subst app'.
  unfold handleCloneCreated, activeStyle, activeClone. simpl.
  rewrite (find_appended voice (clonedVoices app) Hfresh). simpl. repeat split; try reflexivity.
  intro Hnodup. rewrite map_app. simpl.
  apply NoDup_app; [exact Hnodup|constructor; [intros []|constructor]|].
  intros x Hx [<-|[]]. apply in_map_iff in Hx.
  destruct Hx as (v & Hv & Hin). now apply (Hfresh v).
Qed.

Lemma created_clone_becomes_active_witness :
  let other :=
    {| id := "id-1"; name := "Narrator"; baseVoice := "Fenrir";
       styleInstruction := "Speak slowly."; tags := [] |}%string in
  let voice :=
    {| id := "id-2"; name := "Storyteller"; baseVoice := "Puck";
       styleInstruction := "Speak with a rapid pace."; tags := [] |}%string in
  (forall v, In v (clonedVoices (initialApp [other])) -> id v <> id voice) /\
  activeClone (handleCloneCreated voice (initialApp [other])) = Some voice.
Proof.
  intros other voice.
  assert (forall v, In v (clonedVoices (initialApp [other])) ->
                    id v <> id voice) as Hfresh
    by (intros v [<-|[]]; discriminate).
  split; [exact Hfresh|].
  destruct (created_clone_becomes_active voice (initialApp [other]) Hfresh)
    as (_ & _ & _ & H & _).
  exact H.
Defined.

(** X19. Choosing a preset voice clears the active clone: afterwards no
    clone is active and no style is handed to the hook, the chosen preset
    is the only one drawn as selected and no clone row is; speed, pitch,
    tone, the system instruction and the clone list are as before. *)
Theorem preset_choice_clears_active_clone :
  forall (voice : string) (app : AppState),
    let app' := setConfig (handleVoiceSelect voice (config app)) app in
    voiceName (config app') = voice /\
    activeClone app' = None /\
    activeStyle app' = None /\
    (forall v, presetSelected v (config app') = String.eqb voice v) /\
    (forall clone, cloneSelected clone (config app') = false) /\
    speed (config app') = speed (config app) /\
    pitch (config app') = pitch (config app) /\
    tone (config app') = tone (config app) /\
    systemInstruction (config app') = systemInstruction (config app) /\
    clonedVoices app' = clonedVoices app.
Proof.
  intros voice app app'. subst app'.
  unfold setConfig, handleVoiceSelect, activeStyle, activeClone,
    presetSelected, cloneSelected. simpl.
  rewrite find_hasId_None. simpl.
  repeat split; try reflexivity.
  intro v. apply andb_true_r.
Qed.

(** X20. A click on a clone row does nothing while a name is being edited.
    Otherwise it selects the clone with its base voice: the row is drawn
    as selected, no preset is (for a clone whose id is not empty), and
    when the clone is in the list and the ids of the list are distinct it
    becomes the active clone, whose style is handed to the hook. *)
Theorem clone_choice_selects_unless_editing :
  forall (st : ControlsState) (clone : ClonedVoice) (app : AppState),
    (truthy (editingId st) = true ->
     handleCloneSelect st clone (config app) = None) /\
    (truthy (editingId st) = false ->
     exists c,
       handleCloneSelect st clone (config app) = Some c /\
       voiceName c = baseVoice clone /\
       cloneSelected clone c = true /\
       (id clone <> EmptyString -> forall v, presetSelected v c = false) /\
       (In clone (clonedVoices app) ->
        NoDup (map id (clonedVoices app)) ->
        activeClone (setConfig c app) = Some clone /\
        activeStyle (setConfig c app) = Some (styleInstruction clone))).
Proof.
  intros st clone app. unfold handleCloneSelect. split; intro H; rewrite H.
  - reflexivity.
  - eexists. split; [reflexivity|].
    unfold cloneSelected, presetSelected, activeStyle, activeClone. simpl.
    split; [reflexivity|]. split; [apply String.eqb_refl|]. split.
    + intros Hid v. destruct (id clone) as [|a s]; [congruence|].
      apply andb_false_r.
    + intros Hin Hnodup. rewrite (find_listed clone _ Hin Hnodup).
      split; reflexivity.
Qed.

(** ** The cloner *)

(** X21. [analyzeAndClone] does nothing without a recording; with one it
    always ends with [isAnalyzing] false and leaves the recording and the
    other cells alone. It hands over a voice only when the recording could
    be encoded, the API key is set and the reply could be read, and the
    voice then has the fresh id and a non-empty name, base voice and
    style, whatever the reply lacks. *)
Theorem analysis_ends_and_fills_missing_fields :
  forall (env : Environment) (base64Audio : option string) (reply : Reply)
         (randomUUID : string) (st : ClonerState),
    let result := analyzeAndClone env base64Audio reply randomUUID st in
    (audioBlob st = None -> result = (st, None)) /\
    (audioBlob st <> None -> isAnalyzing (fst result) = false) /\
    isRecording (fst result) = isRecording st /\
    recordingTime (fst result) = recordingTime st /\
    audioBlob (fst result) = audioBlob st /\
    (forall voice,
       snd result = Some voice ->
       audioBlob st <> None /\
       base64Audio <> None /\
       truthy (API_KEY env) = true /\
       reply <> RequestFails /\
       reply <> Unparsable /\
       id voice = randomUUID /\
       name voice <> EmptyString /\
       baseVoice voice <> EmptyString /\
       styleInstruction voice <> EmptyString).
Proof.
  intros env base64Audio reply randomUUID st result. subst result.
  unfold analyzeAndClone.
  destruct (audioBlob st) as [blob|] eqn:Hblob; simpl.
  - split; [discriminate|]. split; [reflexivity|].
    split; [reflexivity|]. split; [reflexivity|].
    split; [exact Hblob|].
    intros voice Hvoice.
    destruct base64Audio as [encoded|]; [|discriminate].
    destruct (truthy (API_KEY env)); [|discriminate]. simpl in Hvoice.
    assert (forall fields,
              Some (newVoice randomUUID fields) = Some voice ->
              id voice = randomUUID /\
              name voice <> EmptyString /\
              baseVoice voice <> EmptyString /\
              styleInstruction voice <> EmptyString) as Hfilled.
    { intros fields E. injection E as <-. simpl.
      repeat split; try apply orElse_not_empty; discriminate. }
    destruct reply as [| | |fields]; try discriminate;
      (split; [discriminate|]); (split; [discriminate|]);
      (split; [reflexivity|]); (split; [discriminate|]);
      (split; [discriminate|]); eapply Hfilled; exact Hvoice.
  - split; [reflexivity|]. split; [congruence|].
    split; [reflexivity|]. split; [reflexivity|].
    split; [exact Hblob|]. discriminate.
Qed.

(** X22. From the recording to the session: when the analysis of a
    recording succeeds and the new id is not in the list, the cloner is
    closed with [isAnalyzing] false, the new voice is the active clone,
    and the next connect from [DISCONNECTED] or [ERROR] creates a session
    for the base voice of the reply ("Kore" when the reply names none)
    whose system instruction carries the style of the reply ("Speak
    naturally." when the reply has none). *)
Theorem cloned_voice_reaches_next_session :
  forall (env : Environment) (blob encoded : string) (fields : CloneFields)
         (randomUUID : string) (st : ClonerState) (app : AppState)
         (w : World),
    audioBlob st = Some blob ->
    truthy (API_KEY env) = true ->
    microphone env = Web.Granted ->
    (forall v, In v (clonedVoices app) -> id v <> randomUUID) ->
    connectionState (hook w) = DISCONNECTED \/
    connectionState (hook w) = ERROR ->
    let result :=
      cloneFromRecording env (Some encoded) (Parsed fields) randomUUID st
        app in
    let w' := after (handleToggleConnect env (snd result) w) in
    isAnalyzing (fst result) = false /\
    showCloner (snd result) = false /\
    activeClone (snd result) = Some (newVoice randomUUID fields) /\
    option_map chan_voiceName
      (nth_error (sessions (browser w'))
         (List.length (sessions (browser w))))
      = Some (orElse (reply_baseVoice fields) "Kore") /\
    option_map (fun l => si_style (chan_systemInstruction l))
      (nth_error (sessions (browser w'))
         (List.length (sessions (browser w))))
      = Some (Some (orElse (reply_styleInstruction fields)
                      "Speak naturally.")).
Proof.
  intros env blob encoded fields randomUUID st app w Hblob Hkey Hmike
    Hfresh Hidle result w'. subst w' result.
  unfold cloneFromRecording, analyzeAndClone. rewrite Hblob, Hkey.
  cbn [negb fst snd].
  assert (activeClone (handleCloneCreated (newVoice randomUUID fields) app)
          = Some (newVoice randomUUID fields)) as Hactive.
  { unfold activeClone, handleCloneCreated. simpl.
    apply (find_appended (newVoice randomUUID fields)). exact Hfresh. }
  split; [reflexivity|]. split; [reflexivity|]. split; [exact Hactive|].
  rewrite (toggle_when_idle env _ w Hidle).
  rewrite (connect_success env _ _ w Hkey Hmike).
  unfold activeStyle. rewrite Hactive.
  unfold connected. cbn -[truthy orElse]. rewrite nth_error_last.
  cbn -[truthy orElse].
  rewrite truthy_not_empty by (apply orElse_not_empty; discriminate).
  split; reflexivity.
Qed.

Lemma cloned_voice_reaches_next_session_witness :
  let fields :=
    {| reply_name := Some "Storyteller"%string;
       reply_baseVoice := Some "Puck"%string;
       reply_styleInstruction := None; reply_tags := None |} in
  let st :=
    {| isRecording := false; isAnalyzing := false; recordingTime := 3;
       audioBlob := Some "webm"%string |} in
  let result :=
    cloneFromRecording friendly (Some "d2VibQ=="%string) (Parsed fields)
      "id-1" st (initialApp []) in
  let w' := after (handleToggleConnect friendly (snd result) initialWorld) in
  option_map (fun l => si_style (chan_systemInstruction l))
    (nth_error (sessions (browser w')) 0)
  = Some (Some "Speak naturally."%string).
Proof.
  intros fields st result w'.
  exact (proj2 (proj2 (proj2 (proj2
    (cloned_voice_reaches_next_session friendly "webm" "d2VibQ==" fields
       "id-1" st (initialApp []) initialWorld eq_refl eq_refl eq_refl
       (fun v (H : In v []) => match H with end) (or_introl eq_refl)))))).
Defined.

(** ** The visualizer *)

Lemma filterFrom_even_odd (chartData : list nat) (from : nat) :
  (Nat.even from = true ->
   List.length (filterFrom (fun _ i => Nat.eqb (i mod factor) 0) from
                  chartData)
   = ((List.length chartData + 1) / 2)%nat /\
   forall k,
     nth_error (filterFrom (fun _ i => Nat.eqb (i mod factor) 0) from
                  chartData) k
     = nth_error chartData (2 * k)) /\
  (Nat.even from = false ->
   List.length (filterFrom (fun _ i => Nat.eqb (i mod factor) 0) from
                  chartData)
   = (List.length chartData / 2)%nat /\
   forall k,
     nth_error (filterFrom (fun _ i => Nat.eqb (i mod factor) 0) from
                  chartData) k
     = nth_error chartData (2 * k + 1)).
Proof.
  revert from. induction chartData as [|x rest IH]; intro from.
  - split; intros _; (split; [reflexivity|]); intro k;
      rewrite !nth_error_nil; reflexivity.
  - assert (Nat.eqb (from mod factor) 0 = Nat.even from) as Hkeep.
    { unfold factor. rewrite <- Nat.bit0_mod, Nat.bit0_odd,
        <- Nat.negb_even.
      destruct (Nat.even from); reflexivity. }
    destruct (IH (S from)) as [IHeven IHodd].
    cbn [filterFrom]. rewrite Hkeep.
    split; intro Hfrom; rewrite Hfrom.
    + assert (Nat.even (S from) = false) as Hnext
        by (rewrite Nat.even_succ, <- Nat.negb_even, Hfrom; reflexivity).
      destruct (IHodd Hnext) as [Hlen Hnth]. split.
      * cbn [List.length]. rewrite Hlen.
        replace (S (List.length rest) + 1)%nat
          with (List.length rest + 1 * 2)%nat by lia.
        rewrite Nat.div_add by discriminate. lia.
      * intros [|k]; [reflexivity|].
        change (nth_error (x :: ?l) (S k)) with (nth_error l k).
        rewrite Hnth.
        replace (2 * S k)%nat with (S (2 * k + 1)) by lia. reflexivity.
    + assert (Nat.even (S from) = true) as Hnext
        by (rewrite Nat.even_succ, <- Nat.negb_even, Hfrom; reflexivity).
      destruct (IHeven Hnext) as [Hlen Hnth]. split.
      * rewrite Hlen. cbn [List.length].
        replace (List.length rest + 1)%nat with (S (List.length rest))
          by lia.
        reflexivity.
      * intro k. rewrite Hnth.
        replace (2 * k + 1)%nat with (S (2 * k)) by lia. reflexivity.
Qed.

(** X23. The drawn data is every second frequency bin: point [k] is bin
    [2k], and [n] bins give [(n+1)/2] points (rounded down); with the
    analyser of the hook (FFT size 256) a frame of 128 bins gives 64
    points. *)
Theorem visualizer_draws_every_second_bin :
  forall (chartData : list nat),
    List.length (simpleData chartData)
      = ((List.length chartData + 1) / 2)%nat /\
    (forall k,
       nth_error (simpleData chartData) k = nth_error chartData (2 * k)) /\
    (forall env config style w analyser,
       truthy (API_KEY env) = true ->
       microphone env = Web.Granted ->
       analyserRef (hook (after (connect env config style w)))
         = Some analyser ->
       List.length chartData = frequencyBinCount analyser ->
       List.length (simpleData chartData) = 64%nat).
Proof.
  intro chartData.
  destruct (proj1 (filterFrom_even_odd chartData 0) eq_refl) as [Hlen Hnth].
  split; [exact Hlen|]. split; [exact Hnth|].
  intros env config style w analyser Hkey Hmike Hanalyser Hbins.
  rewrite (connect_success env _ _ w Hkey Hmike) in Hanalyser.
  unfold connected in Hanalyser. simpl in Hanalyser.
  injection Hanalyser as <-. unfold simpleData. rewrite Hlen, Hbins.
  reflexivity.
Qed.

(** X24. The x scale is laid out for all the bins but only every second
    bin is drawn, one step apart: every drawn point lies in the left half
    of the width. *)
Theorem visualizer_curve_fills_left_half :
  forall (chartData : list nat) (width : Q) (k : nat),
    0 <= width ->
    (k < List.length (simpleData chartData))%nat ->
    xScale (List.length chartData) width k <= width / 2.
Proof.
  intros chartData width k Hwidth Hk.
  destruct (proj1 (filterFrom_even_odd chartData 0) eq_refl) as [Hlen _].
  unfold simpleData in Hk. rewrite Hlen in Hk.
  assert (2 * k <= List.length chartData)%nat as Hhalf.
  { pose proof (Nat.div_mod_eq (List.length chartData + 1) 2) as E.
    pose proof (Nat.mod_upper_bound (List.length chartData + 1) 2) as B.
    lia. }
  assert (0 < List.length chartData)%nat as Hpos.
  { destruct chartData; [simpl in Hk; lia|simpl; lia]. }
  unfold xScale.
  set (n := List.length chartData) in *.
  assert (0 < inject_Z (Z.of_nat n)) as Hn.
  { replace 0 with (inject_Z 0) by reflexivity. rewrite <- Zlt_Qlt. lia. }
  assert (2 * inject_Z (Z.of_nat k) <= inject_Z (Z.of_nat n)) as Hq.
  { replace 2 with (inject_Z 2) by reflexivity.
    rewrite <- inject_Z_mult, <- Zle_Qle. lia. }
  apply Qle_shift_div_r; [exact Hn|].
  generalize dependent (inject_Z (Z.of_nat n)).
  generalize (inject_Z (Z.of_nat k)). intros a b _ Hq.
  assert (0 <= (b - 2 * a) * width) as Hproduct
    by (apply Qmult_le_0_compat; [lra|exact Hwidth]).
  setoid_replace (width / 2 * b)
    with (a * width + (1 # 2) * ((b - 2 * a) * width)) by field.
  lra.
Qed.

Lemma visualizer_curve_fills_left_half_witness :
  xScale 4 300 1 <= 300 / 2.
Proof.
  apply (visualizer_curve_fills_left_half [10; 20; 30; 40]%nat 300 1%nat).
  - discriminate.
  - simpl. lia.
Defined.
